(** * TeleCompass: ingestion queue and hybrid retrieval

    A shallow embedding of [lib/pinecone.ts], [lib/rag.ts] and the
    ingestion queue module (queuePolicyProcessing / processQueue /
    deletePolicy), with the properties the specification states about
    them and further properties read off the code.

    Conventions.
    - A JavaScript [number] that is a score or a confidence is a rational
      ([Q]): the value a finite double denotes, with exact arithmetic.
      Where the source coerces with [Number(...)], the result type is
      [number], which adds NaN and the infinities.
    - [async]/[await] code is sequential: a computation is a function from
      the world to an outcome (a value or a thrown error) and a new world.
    - Services outside the repository are interfaces: the Pinecone index
      handle is [VectorIndex]; the embedding and chat models, the PDF
      processor, JSON.parse and the number/string conversions of ECMAScript
      are fields of [Env]. What a service answers may depend on the trace
      of calls made so far.
    - The relational store is a finite map of policies and two tables;
      its operations fail as Prisma's do (an update of a missing row, a
      row the schema refuses). The store may also reject a [findMany], a
      [createMany] or an [update] for a reason of its own, which
      [store_fault] decides from the calls made so far; [findUnique] and
      [delete] answer. Calls to the store are not in the trace.
    - The trace records every call that leaves the process;
      [console.error] and [console.warn] appear in it with their fixed
      message text, [console.log] progress lines do not. The call of
      [deletePolicyEmbeddings] shows in the index it leaves, not in the
      trace. *)

From stdpp Require Import gmap strings list fin_maps.
From Stdlib Require Import Ascii QArith Qminmax Sorted Permutation Lia.

Set Warnings "-abstract-large-number".
Close Scope Q_scope.
Open Scope string_scope.
Open Scope nat_scope.

(** ** JavaScript values *)

Inductive number :=
| Num (q : Q)
| NaN
| Infinity (negative : bool).

(** Pinecone's [RecordMetadataValue]: string | number | boolean | string[]. *)
Inductive MetadataValue :=
| MString (s : string)
| MNumber (q : Q)
| MBoolean (b : bool)
| MStringList (l : list string).

(** [Array.prototype.join] on an array of strings. *)
Fixpoint join (sep : string) (l : list string) : string :=
  match l with
  | [] => ""
  | [x] => x
  | x :: rest => x ++ sep ++ join sep rest
  end.

(** Thrown values: [new Error(message)]. *)
Inductive exn := Error (message : string).

Inductive Outcome (A : Type) :=
| Ok (a : A)
| Throw (e : exn).
Arguments Ok {A} a.
Arguments Throw {A} e.

(** ** lib/pinecone.ts: data *)

Definition VECTOR_DIMENSIONS : nat := 768.

Record VectorEntry := {
  entry_id : string;
  entry_values : list Q;
  entry_metadata : gmap string MetadataValue
}.

(** The two filter shapes the repository sends: [{ f: { $in: vs } }] and
    [{ f: v }]. *)
Inductive Filter :=
| FieldIn (field : string) (allowed : list string)
| FieldIs (field : string) (value : string).

Record QueryRequest := {
  req_vector : list Q;
  req_topK : nat;
  req_includeMetadata : bool;
  req_filter : option Filter
}.

Record ScoredRecord := {
  match_id : string;
  match_score : option Q;
  match_metadata : option (gmap string MetadataValue)
}.

Record QueryResponse := { matches : option (list ScoredRecord) }.

(** ** lib/rag.ts and queue: data *)

Record SearchResult := {
  chunkId : string;
  content : string;
  pageNumber : number;
  similarity : Q;
  policyId : string;
  stateName : string;
  policyTitle : string
}.

Inductive Role := system | user | assistant.

Record ChatMessage := { role : Role; msg_content : string }.

Record ChatOptions := { temperature : Q; numPredict : nat }.

Record Citation := {
  cit_content : string;
  cit_pageNumber : number;
  cit_stateName : string;
  cit_policyTitle : string
}.

Record RAGResponse := {
  answer : string;
  confidence : Q;
  citations : list Citation;
  suggestedQueries : option (list string)
}.

(** Values produced by [JSON.parse]; an object lists its properties, each
    key once. *)
#[local] Unset Elimination Schemes.
Inductive json :=
| JNull
| JBool (b : bool)
| JNum (q : Q)
| JStr (s : string)
| JArr (items : list json)
| JObj (props : list (string * json)).
#[local] Set Elimination Schemes.

Inductive Status := pending | processing | completed | failed.

Record Policy := {
  pol_id : string;
  pol_stateId : string;
  pol_stateName : string;
  pol_title : string;
  pol_status : Status;
  pol_processedAt : option nat
}.

Record PolicyChunk := {
  chunk_id : string;
  chunk_policyId : string;
  chunk_content : string;
  chunk_pageNumber : nat;
  chunk_chunkIndex : nat
}.

(** The [data] object handed to [prisma.policyFact.create]; a field the
    parsed fact lacks is [None] (undefined). *)
Record PolicyFactData := {
  fact_policyId : string;
  fact_stateId : string;
  fact_category : option json;
  fact_field : option json;
  fact_value : option json;
  fact_confidence : json;
  fact_pageNumber : option json
}.

Record ProcessedChunk := {
  pc_content : string;
  pc_pageNumber : nat;
  pc_chunkIndex : nat
}.

Record IngestionJob := {
  job_policyId : string;
  job_buffer : option string;
  job_filePath : option string;
  job_deleteFileAfter : option bool
}.

(** ** Calls to the relational store that it may reject on its own *)

Inductive StoreCall :=
| PolicyChunkFindMany (ids : list string)
| PolicyChunkCreateMany (policyId : string) (data : list ProcessedChunk)
| PolicyUpdate (id : string).

(** ** Trace of calls that leave the process *)

Inductive Level := LError | LWarn.

Inductive event :=
| EvEmbed (text : string)
| EvIndexQuery (req : QueryRequest)
| EvIndexUpsert (entries : list VectorEntry)
| EvIndexDeleteMany (ids : list string)
| EvChat (messages : list ChatMessage) (opts : ChatOptions)
| EvProcessPDF (buffer policy : string)
| EvReadFile (path : string)
| EvUnlink (path : string)
| EvConsole (lvl : Level) (text : string).

(** ** The world *)

Record World := {
  policies : gmap string Policy;
  chunks : list PolicyChunk;
  facts : list PolicyFactData;
  index : gmap string VectorEntry;
  files : gmap string string;
  clock : nat;
  jobQueue : list IngestionJob;
  isProcessing : bool;
  trace : list event
}.

Definition M (A : Type) : Type := World -> Outcome A * World.

Definition ret {A} (a : A) : M A := fun w => (Ok a, w).
Definition throw {A} (e : exn) : M A := fun w => (Throw e, w).
Definition bind {A B} (m : M A) (k : A -> M B) : M B :=
  fun w => match m w with
           | (Ok a, w') => k a w'
           | (Throw e, w') => (Throw e, w')
           end.

Notation "'let*' x ':=' m 'in' k" := (bind m (fun x => k))
  (at level 10, x name, m at level 100, k at level 200).
Notation "m ;; k" := (bind m (fun _ => k))
  (at level 100, k at level 200, right associativity).

(** [try { body } catch (error) { handler }] *)
Definition try_catch {A} (body : M A) (handler : exn -> M A) : M A :=
  fun w => match body w with
           | (Ok a, w') => (Ok a, w')
           | (Throw e, w') => handler e w'
           end.

(** [try { body } finally { cleanup }]: the cleanup always runs; when it
    throws, its error replaces the body's outcome. *)
Definition try_finally {A} (body : M A) (cleanup : M unit) : M A :=
  fun w => match body w with
           | (r, w') => match cleanup w' with
                        | (Ok _, w'') => (r, w'')
                        | (Throw e, w'') => (Throw e, w'')
                        end
           end.

Definition emit (e : event) : M unit :=
  fun w => (Ok tt,
            {| policies := policies w; chunks := chunks w; facts := facts w;
               index := index w; files := files w; clock := clock w;
               jobQueue := jobQueue w; isProcessing := isProcessing w;
               trace := trace w ++ [e] |}).

Definition console_error (text : string) : M unit := emit (EvConsole LError text).
Definition console_warn (text : string) : M unit := emit (EvConsole LWarn text).

Definition set_index (i : gmap string VectorEntry) : M unit :=
  fun w => (Ok tt,
            {| policies := policies w; chunks := chunks w; facts := facts w;
               index := i; files := files w; clock := clock w;
               jobQueue := jobQueue w; isProcessing := isProcessing w;
               trace := trace w |}).

Definition set_policies (p : gmap string Policy) : M unit :=
  fun w => (Ok tt,
            {| policies := p; chunks := chunks w; facts := facts w;
               index := index w; files := files w; clock := clock w;
               jobQueue := jobQueue w; isProcessing := isProcessing w;
               trace := trace w |}).

Definition set_chunks (c : list PolicyChunk) : M unit :=
  fun w => (Ok tt,
            {| policies := policies w; chunks := c; facts := facts w;
               index := index w; files := files w; clock := clock w;
               jobQueue := jobQueue w; isProcessing := isProcessing w;
               trace := trace w |}).

Definition set_facts (f : list PolicyFactData) : M unit :=
  fun w => (Ok tt,
            {| policies := policies w; chunks := chunks w; facts := f;
               index := index w; files := files w; clock := clock w;
               jobQueue := jobQueue w; isProcessing := isProcessing w;
               trace := trace w |}).

Definition set_files (f : gmap string string) : M unit :=
  fun w => (Ok tt,
            {| policies := policies w; chunks := chunks w; facts := facts w;
               index := index w; files := f; clock := clock w;
               jobQueue := jobQueue w; isProcessing := isProcessing w;
               trace := trace w |}).

Definition set_jobQueue (q : list IngestionJob) : M unit :=
  fun w => (Ok tt,
            {| policies := policies w; chunks := chunks w; facts := facts w;
               index := index w; files := files w; clock := clock w;
               jobQueue := q; isProcessing := isProcessing w;
               trace := trace w |}).

Definition set_isProcessing (b : bool) : M unit :=
  fun w => (Ok tt,
            {| policies := policies w; chunks := chunks w; facts := facts w;
               index := index w; files := files w; clock := clock w;
               jobQueue := jobQueue w; isProcessing := b;
               trace := trace w |}).

Definition get {A} (f : World -> A) : M A := fun w => (Ok (f w), w).

(** Line feed and the double quote, for the source's string literals. *)
Definition LF : string := String (Ascii.ascii_of_nat 10) EmptyString.
Definition DQ : string := String (Ascii.ascii_of_nat 34) EmptyString.

(** ** Collaborators *)

Record Processed := { processed_chunks : list ProcessedChunk }.

(** The handle [pineconeIndex] of the Pinecone client: each operation
    sees the calls made so far and the index contents. *)
Class VectorIndex := {
  pinecone_query :
    list event -> QueryRequest -> gmap string VectorEntry -> Outcome QueryResponse;
  pinecone_upsert :
    list event -> list VectorEntry -> gmap string VectorEntry ->
    Outcome unit * gmap string VectorEntry;
  pinecone_deleteMany :
    list event -> list string -> gmap string VectorEntry ->
    Outcome unit * gmap string VectorEntry
}.

Class Env := {
  (** ECMAScript StringToNumber and Number::toString. *)
  StringToNumber : string -> number;
  NumberToString : number -> string;
  (** [s.slice(start, end)], which counts UTF-16 code units of the text
      whose bytes a [string] holds. *)
  String_slice : string -> nat -> nat -> string;
  (** [JSON.parse]; [None] is a thrown SyntaxError. *)
  JSON_parse : string -> option json;
  (** lib/openai *)
  generateEmbedding : list event -> string -> Outcome (list Q);
  generateChatCompletion :
    list event -> list ChatMessage -> ChatOptions -> Outcome string;
  (** lib/pdf-processor: extract, chunk, embed and upsert *)
  processAndStorePDF :
    list event -> string -> string -> string -> string -> string ->
    gmap string VectorEntry -> Outcome Processed * gmap string VectorEntry;
  (** the relational store: the id it gives the n-th chunk row, and its
      schema check of a PolicyFact row *)
  generate_id : nat -> string;
  policyFact_accepts : PolicyFactData -> bool;
  (** a [findMany], [createMany] or [update] that the store rejects for a
      reason of its own (a lost connection, a constraint): the error it
      throws, if any *)
  store_fault : list event -> StoreCall -> option exn;
  (** a file-system call that fails for a reason outside the model
      (permissions, a busy file): the error it throws, if any *)
  fs_fault : list event -> string -> option exn
}.

(** What deleting a policy needs from outside the sources:
    [deletePolicyEmbeddings] of lib/pdf-processor, which answers and leaves
    an index, and the relational schema's action on the chunk and fact rows
    of a deleted policy. *)
Class Deletion := {
  deletePolicyEmbeddings :
    list event -> string -> gmap string VectorEntry ->
    Outcome unit * gmap string VectorEntry;
  on_policy_delete :
    string -> list PolicyChunk -> list PolicyFactData ->
    list PolicyChunk * list PolicyFactData
}.

Section Core.
Context `{I : VectorIndex} `{E : Env}.

Definition lift_outcome {A} (o : Outcome A) : M A := fun w => (o, w).

(** ** lib/pinecone.ts *)

Definition pineconeIndex_query (req : QueryRequest) : M QueryResponse :=
  fun w => let (_, w1) := emit (EvIndexQuery req) w in
           (pinecone_query (trace w) req (index w), w1).

Definition pineconeIndex_upsert (vectors : list VectorEntry) : M unit :=
  fun w => let (_, w1) := emit (EvIndexUpsert vectors) w in
           let (r, i) := pinecone_upsert (trace w) vectors (index w) in
           match set_index i w1 with (_, w2) => (r, w2) end.

Definition pineconeIndex_deleteMany (ids : list string) : M unit :=
  fun w => let (_, w1) := emit (EvIndexDeleteMany ids) w in
           let (r, i) := pinecone_deleteMany (trace w) ids (index w) in
           match set_index i w1 with (_, w2) => (r, w2) end.

Record UpsertResult := { upsertedCount : nat }.
Record DeleteResult := { deletedCount : nat }.

Definition upsertVectors (vectors : list VectorEntry) : M UpsertResult :=
  try_catch
    (pineconeIndex_upsert vectors ;;
     ret {| upsertedCount := length vectors |})
    (fun error =>
       console_error "Error upserting vectors to Pinecone:" ;;
       throw error).

Definition queryVectors (queryVector : list Q) (topK : nat)
    (filter : option Filter) : M (list ScoredRecord) :=
  try_catch
    (let* result := pineconeIndex_query
                 {| req_vector := queryVector; req_topK := topK;
                    req_includeMetadata := true; req_filter := filter |} in
     ret (default [] (matches result)))
    (fun error =>
       console_error "Error querying vectors from Pinecone:" ;;
       throw error).

Definition deleteVectors (vectorIds : list string) : M DeleteResult :=
  try_catch
    (pineconeIndex_deleteMany vectorIds ;;
     ret {| deletedCount := length vectorIds |})
    (fun error =>
       console_error "Error deleting vectors from Pinecone:" ;;
       throw error).

(** [new Array(768).fill(0)] *)
Definition dummyVector : list Q := replicate 768 0%Q.

(** The filter-only query of [deletePolicyVectors]. *)
Definition enumeration_request (policyId : string) : QueryRequest :=
  {| req_vector := dummyVector;
     req_topK := 10000;
     req_includeMetadata := false;
     req_filter := Some (FieldIs "policyId" policyId) |}.

Definition deletePolicyVectors (policyId : string) : M DeleteResult :=
  try_catch
    (let* queryResult := pineconeIndex_query (enumeration_request policyId) in
     match matches queryResult with
     | Some (m :: ms) =>
         let vectorIds := map match_id (m :: ms) in
         pineconeIndex_deleteMany vectorIds ;;
         ret {| deletedCount := length (m :: ms) |}
     | Some [] => ret {| deletedCount := 0 |}
     | None => ret {| deletedCount := 0 |}
     end)
    (fun error =>
       console_error "Error deleting policy vectors from Pinecone:" ;;
       throw error).

(** ** lib/rag.ts: hybridSearch *)

Definition SIMILARITY_THRESHOLD : Q := 0.7.
Definition TOP_K_RESULTS : nat := 5.

(** [Array.prototype.sort(cmp)]: a stable sort; [x] stays before [y]
    unless [cmp x y > 0]. *)
Fixpoint sort_insert {A} (cmp : A -> A -> Q) (x : A) (l : list A) : list A :=
  match l with
  | [] => [x]
  | y :: l' => if Qlt_le_dec 0 (cmp x y)
               then y :: sort_insert cmp x l'
               else x :: y :: l'
  end.

Definition Array_sort {A} (cmp : A -> A -> Q) (l : list A) : list A :=
  foldr (sort_insert cmp) [] l.

(** [String(v)] for a metadata value. *)
Definition String_of (v : MetadataValue) : string :=
  match v with
  | MString s => s
  | MNumber q => NumberToString (Num q)
  | MBoolean true => "true"
  | MBoolean false => "false"
  | MStringList l => join "," l
  end.

(** [Number(v)] for a metadata value. *)
Definition Number_of (v : MetadataValue) : number :=
  match v with
  | MString s => StringToNumber s
  | MNumber q => Num q
  | MBoolean true => Num 1
  | MBoolean false => Num 0
  | MStringList l => StringToNumber (join "," l)
  end.

Definition passes_threshold (m : ScoredRecord) : bool :=
  match match_score m with
  | Some s => if Qlt_le_dec s SIMILARITY_THRESHOLD then false else true
  | None => false
  end.

Definition toSearchResult (m : ScoredRecord) : SearchResult :=
  let metadata := default ∅ (match_metadata m) in
  {| chunkId := match_id m;
     content := match metadata !! "content" with
                | Some (MString s) => s
                | Some v => String_of v
                | None => ""
                end;
     pageNumber := match metadata !! "pageNumber" with
                   | Some (MNumber q) => Num q
                   | Some v => Number_of v
                   | None => Num 1
                   end;
     similarity := default 0%Q (match_score m);
     policyId := match metadata !! "policyId" with
                 | Some (MString s) => s
                 | Some v => String_of v
                 | None => ""
                 end;
     stateName := match metadata !! "stateName" with
                  | Some (MString s) => s
                  | _ => "Unknown"
                  end;
     policyTitle := match metadata !! "policyTitle" with
                    | Some (MString s) => s
                    | _ => "Unknown Policy"
                    end |}.

Definition by_similarity_desc (a b : SearchResult) : Q :=
  (similarity b - similarity a)%Q.

Definition rank (topK : nat) (pineconeResults : list ScoredRecord)
    : list SearchResult :=
  take topK
    (Array_sort by_similarity_desc
       (map toSearchResult (filter (fun m => passes_threshold m = true) pineconeResults))).

Definition call_generateEmbedding (text : string) : M (list Q) :=
  fun w => let (_, w1) := emit (EvEmbed text) w in
           (generateEmbedding (trace w) text, w1).

Definition state_filter (stateFilter : option (list string)) : option Filter :=
  match stateFilter with
  | Some names => Some (FieldIn "stateName" names)
  | None => None
  end.

Definition hybridSearch (query : string) (stateFilter : option (list string))
    (topK : nat) : M (list SearchResult) :=
  try_catch
    (let* queryEmbedding := call_generateEmbedding query in
     let filter := state_filter stateFilter in
     let* pineconeResults := queryVectors queryEmbedding (topK * 2) filter in
     ret (rank topK pineconeResults))
    (fun error =>
       console_error "Error in hybrid search:" ;;
       throw (Error "Search failed")).

(** ** lib/rag.ts: ragQuery *)

(** An awaited store call: it rejects when the store says so. *)
Definition store_call (call : StoreCall) : M unit :=
  fun w => match store_fault (trace w) call with
           | Some e => (Throw e, w)
           | None => (Ok tt, w)
           end.

(** [prisma.policyChunk.findMany({ where: { id: { in: ids } } })] *)
Definition policyChunk_findMany_in (ids : list string) : M (list PolicyChunk) :=
  store_call (PolicyChunkFindMany ids) ;;
  get (fun w => filter (fun c => chunk_id c ∈ ids) (chunks w)).

(** [fullChunks.find(c => c.id === id)?.content || fallback] *)
Definition hydrated_content (fullChunks : list PolicyChunk) (r : SearchResult)
    : string :=
  match find (fun c => bool_decide (chunk_id c = chunkId r)) fullChunks with
  | Some c => if bool_decide (chunk_content c = "") then content r
              else chunk_content c
  | None => content r
  end.

Definition no_results_answer : string :=
  "I couldn't find relevant information to answer your question. Try rephrasing or asking about specific telehealth modalities, billing codes, or state requirements.".

Definition no_results_suggestions : list string :=
  [ "What are the live video requirements?";
    "Does this state allow store-and-forward?";
    "What are the consent requirements?" ].

Definition no_results_response : RAGResponse :=
  {| answer := no_results_answer;
     confidence := 0;
     citations := [];
     suggestedQueries := Some no_results_suggestions |}.

Definition rag_systemPrompt : string :=
  "You are a telehealth policy expert assistant. Answer questions based ONLY on the provided context from state telehealth policy documents.

Rules:
1. Only use information from the provided context
2. Always cite sources using [number] notation
3. If the context doesn't contain enough information, say so clearly
4. Be concise and specific
5. For regulatory questions, quote exact requirements when possible
6. If confidence is low, suggest alternative queries".

Definition context_entry (fullChunks : list PolicyChunk) (idx : nat)
    (result : SearchResult) : string :=
  "[" ++ NumberToString (Num (inject_Z (Z.of_nat (idx + 1)))) ++ "] From "
      ++ stateName result ++ " (Page " ++ NumberToString (pageNumber result)
      ++ "):" ++ LF ++ hydrated_content fullChunks result.

Definition build_context (fullChunks : list PolicyChunk)
    (searchResults : list SearchResult) : string :=
  join (LF ++ LF) (imap (context_entry fullChunks) searchResults).

Definition rag_userPrompt (context query : string) : string :=
  "Context from policy documents:" ++ LF ++ context ++ LF ++ LF
  ++ "Question: " ++ query ++ LF ++ LF
  ++ "Provide a clear, cited answer. Use [1], [2], etc. to reference the context sources.".

(** [history.slice(-10)] *)
Definition last_ten {A} (history : list A) : list A :=
  drop (length history - 10) history.

Definition call_generateChatCompletion (messages : list ChatMessage)
    (opts : ChatOptions) : M string :=
  fun w => let (_, w1) := emit (EvChat messages opts) w in
           (generateChatCompletion (trace w) messages opts, w1).

(** [searchResults.reduce((sum, r) => sum + r.similarity, 0)] *)
Definition sum_similarity (searchResults : list SearchResult) : Q :=
  fold_left (fun sum r => (sum + similarity r)%Q) searchResults 0%Q.

Definition rag_confidence (searchResults : list SearchResult) : Q :=
  let avgSimilarity :=
    (sum_similarity searchResults / inject_Z (Z.of_nat (length searchResults)))%Q in
  Qmin (avgSimilarity * 1.2) 1.0.

Definition to_citation (fullChunks : list PolicyChunk) (result : SearchResult)
    : Citation :=
  {| cit_content := hydrated_content fullChunks result;
     cit_pageNumber := pageNumber result;
     cit_stateName := stateName result;
     cit_policyTitle := policyTitle result |}.

Definition rag_messages (query : string) (history : list ChatMessage)
    (fullChunks : list PolicyChunk) (searchResults : list SearchResult)
    : list ChatMessage :=
  let context := build_context fullChunks searchResults in
  let userPrompt := rag_userPrompt context query in
  let trimmedHistory :=
    map (fun message => {| role := role message;
                           msg_content := msg_content message |})
        (last_ten history) in
  [ {| role := system; msg_content := rag_systemPrompt |} ]
  ++ trimmedHistory
  ++ [ {| role := user; msg_content := userPrompt |} ].

Definition rag_options : ChatOptions := {| temperature := 0.3; numPredict := 512 |}.

Definition ragQuery (query : string) (stateFilter : option (list string))
    (history : list ChatMessage) : M RAGResponse :=
  try_catch
    (let* searchResults := hybridSearch query stateFilter TOP_K_RESULTS in
     if Nat.eqb (length searchResults) 0 then ret no_results_response
     else
       let chunkIds := map chunkId searchResults in
       let* fullChunks := policyChunk_findMany_in chunkIds in
       let* answer := call_generateChatCompletion
                        (rag_messages query history fullChunks searchResults)
                        rag_options in
       ret {| answer := answer;
              confidence := rag_confidence searchResults;
              citations := map (to_citation fullChunks) searchResults;
              suggestedQueries := None |})
    (fun error =>
       console_error "Error in RAG query:" ;;
       throw (Error "Failed to generate answer")).

(** ** lib/rag.ts: extractPolicyFacts *)

(** [prisma.policy.findUnique({ where: { id } })]: [None] is [null]. *)
Definition policy_findUnique (id : string) : M (option Policy) :=
  get (fun w => policies w !! id).

(** The [chunks] relation included with a policy. *)
Definition policy_chunks (id : string) : M (list PolicyChunk) :=
  get (fun w => filter (fun c => chunk_policyId c = id) (chunks w)).

(** Prisma's error P2025. *)
Definition record_not_found : exn :=
  Error "An operation failed because it depends on one or more records that were required but not found.".

(** [prisma.policy.update({ where: { id }, data })]: Prisma rejects an
    update whose [where] matches no row; the store may reject the update of
    a row that exists. *)
Definition policy_update (id : string) (data : Policy -> Policy) : M unit :=
  fun w => match policies w !! id with
           | Some p =>
               (store_call (PolicyUpdate id) ;;
                set_policies (<[id := data p]> (policies w))) w
           | None => (Throw record_not_found, w)
           end.

(** [prisma.policyFact.create({ data })] *)
Definition policyFact_create (data : PolicyFactData) : M unit :=
  fun w => if policyFact_accepts data
           then set_facts (facts w ++ [data]) w
           else (Throw (Error "Invalid prisma.policyFact.create() invocation"), w).

Definition extraction_systemPrompt : string :=
  "You are a telehealth policy extraction expert. Extract structured facts from state telehealth policy documents.

Extract the following categories:
1. Modalities: live_video, store_and_forward, rpm, audio_only
2. Consent: requirements and specifics
3. In-person requirements: initial visit rules
4. Provider eligibility: who can provide telehealth
5. Site eligibility: originating/distant site rules
6. Billing: facility fees, modifiers (GT, FQ, 95), reimbursement parity
7. Documentation: special requirements (e.g., BMI recording)
8. Prescribing: controlled substances, restrictions

Return JSON format:
{
  " ++ DQ ++ "facts" ++ DQ ++ ": [
    {
      " ++ DQ ++ "category" ++ DQ ++ ": " ++ DQ ++ "modality" ++ DQ ++ ",
      " ++ DQ ++ "field" ++ DQ ++ ": " ++ DQ ++ "live_video" ++ DQ ++ ",
      " ++ DQ ++ "value" ++ DQ ++ ": " ++ DQ ++ "Allowed with no restrictions" ++ DQ ++ ",
      " ++ DQ ++ "confidence" ++ DQ ++ ": 0.95,
      " ++ DQ ++ "page" ++ DQ ++ ": 3
    }
  ]
}".

(** [s.match(/\{[\s\S]*\}/)]: from the first opening brace to the last
    closing brace after it. *)
Fixpoint from_first_open (s : string) : option string :=
  match s with
  | EmptyString => None
  | String c rest => if Ascii.eqb c "{"%char then Some s else from_first_open rest
  end.

Fixpoint through_last_close (s : string) : option string :=
  match s with
  | EmptyString => None
  | String c rest =>
      match through_last_close rest with
      | Some span => Some (String c span)
      | None => if Ascii.eqb c "}"%char then Some (String c EmptyString) else None
      end
  end.

Definition match_braces (s : string) : option string :=
  match from_first_open s with
  | Some t => through_last_close t
  | None => None
  end.

(** Property read [v.k]: [null] has no properties and throws; a value
    without the property gives undefined ([None]). *)
Definition get_prop (v : json) (k : string) : Outcome (option json) :=
  match v with
  | JNull => Throw (Error ("Cannot read properties of null (reading '" ++ k ++ "')"))
  | JObj props => Ok (snd <$> find (fun kv => bool_decide (fst kv = k)) props)
  | _ => Ok None
  end.

Definition truthy (v : json) : bool :=
  match v with
  | JNull => false
  | JBool b => b
  | JNum q => negb (Qeq_bool q 0)
  | JStr s => negb (bool_decide (s = ""))
  | JArr _ => true
  | JObj _ => true
  end.

(** [fact.confidence || 0.5] *)
Definition confidence_or_default (c : option json) : json :=
  match c with
  | Some v => if truthy v then v else JNum 0.5
  | None => JNum 0.5
  end.

(** The parse step: [result] stays [{}] when nothing matches or when
    [JSON.parse] throws, which is caught with a warning. *)
Definition parse_extraction (extractionRaw : string) : M json :=
  try_catch
    (match match_braces extractionRaw with
     | Some span =>
         match JSON_parse span with
         | Some v => ret v
         | None => throw (Error "Unexpected token in JSON")
         end
     | None => ret (JObj [])
     end)
    (fun error =>
       console_warn "Failed to parse extracted facts JSON" ;;
       ret (JObj [])).

(** The [data] object built for one parsed fact; reading a property of
    [null] throws. *)
Definition fact_data (policy : Policy) (fact : json) : Outcome PolicyFactData :=
  match get_prop fact "category", get_prop fact "field", get_prop fact "value",
        get_prop fact "confidence", get_prop fact "page" with
  | Ok category, Ok field, Ok value, Ok conf, Ok page =>
      Ok {| fact_policyId := pol_id policy;
            fact_stateId := pol_stateId policy;
            fact_category := category;
            fact_field := field;
            fact_value := value;
            fact_confidence := confidence_or_default conf;
            fact_pageNumber := page |}
  | Throw e, _, _, _, _ => Throw e
  | _, Throw e, _, _, _ => Throw e
  | _, _, Throw e, _, _ => Throw e
  | _, _, _, Throw e, _ => Throw e
  | _, _, _, _, Throw e => Throw e
  end.

Definition store_fact (policy : Policy) (fact : json) : M unit :=
  let* data := lift_outcome (fact_data policy fact) in
  policyFact_create data.

Fixpoint store_facts (policy : Policy) (items : list json) : M unit :=
  match items with
  | [] => ret tt
  | fact :: rest => store_fact policy fact ;; store_facts policy rest
  end.

Definition extraction_messages (policy : Policy) (rows : list PolicyChunk)
    : list ChatMessage :=
  let fullText := join LF (map chunk_content rows) in
  [ {| role := system; msg_content := extraction_systemPrompt |};
    {| role := user;
       msg_content :=
         "Extract facts from this " ++ pol_stateName policy
         ++ " policy:" ++ LF ++ LF ++ String_slice fullText 0 12000 |} ].

Definition extraction_options : ChatOptions :=
  {| temperature := 0.1; numPredict := 1024 |}.

Definition extractPolicyFacts (policyId : string) : M unit :=
  try_catch
    (let* found := policy_findUnique policyId in
     match found with
     | None => throw (Error "Policy not found")
     | Some policy =>
         let* rows := policy_chunks policyId in
         let* extractionRaw :=
           call_generateChatCompletion (extraction_messages policy rows)
             extraction_options in
         let* result := parse_extraction extractionRaw in
         let* found_facts := lift_outcome (get_prop result "facts") in
         match found_facts with
         | Some (JArr items) => store_facts policy items
         | _ => ret tt
         end
     end)
    (fun error =>
       console_error "Error extracting policy facts:" ;;
       throw (Error "Failed to extract policy facts")).

(** ** Ingestion queue: queuePolicyProcessing, processQueue *)

Definition enoent (what path : string) : exn :=
  Error ("ENOENT: no such file or directory, " ++ what ++ " '" ++ path ++ "'").

(** [fs.promises.readFile(path)] *)
Definition fs_readFile (path : string) : M string :=
  let* calls := get trace in
  emit (EvReadFile path) ;;
  let* fs := get files in
  match fs_fault calls path, fs !! path with
  | Some e, _ => throw e
  | None, Some bytes => ret bytes
  | None, None => throw (enoent "open" path)
  end.

(** [fs.promises.unlink(path)] *)
Definition fs_unlink (path : string) : M unit :=
  let* calls := get trace in
  emit (EvUnlink path) ;;
  let* fs := get files in
  match fs_fault calls path, fs !! path with
  | Some e, _ => throw e
  | None, Some _ => set_files (delete path fs)
  | None, None => throw (enoent "unlink" path)
  end.

Definition resolveBuffer (job : IngestionJob) : M string :=
  match job_buffer job with
  | Some buffer => ret buffer
  | None =>
      match job_filePath job with
      | Some path =>
          if bool_decide (path = "")
          then throw (Error "No buffer or file path provided for ingestion job")
          else fs_readFile path
      | None => throw (Error "No buffer or file path provided for ingestion job")
      end
  end.

Definition call_processAndStorePDF (buffer policyId stateId stateName title : string)
    : M Processed :=
  fun w => let (_, w1) := emit (EvProcessPDF buffer policyId) w in
           let (r, i) := processAndStorePDF (trace w) buffer policyId stateId
                           stateName title (index w) in
           match set_index i w1 with (_, w2) => (r, w2) end.

(** [prisma.policyChunk.createMany({ data })]: all rows or none. *)
Definition policyChunk_createMany (policyId : string)
    (data : list ProcessedChunk) : M unit :=
  store_call (PolicyChunkCreateMany policyId data) ;;
  let* table := get chunks in
  set_chunks
    (table ++ imap (fun i chunk =>
                      {| chunk_id := generate_id (length table + i);
                         chunk_policyId := policyId;
                         chunk_content := pc_content chunk;
                         chunk_pageNumber := pc_pageNumber chunk;
                         chunk_chunkIndex := pc_chunkIndex chunk |}) data).

Definition mark_completed (now : nat) (p : Policy) : Policy :=
  {| pol_id := pol_id p; pol_stateId := pol_stateId p;
     pol_stateName := pol_stateName p; pol_title := pol_title p;
     pol_status := completed; pol_processedAt := Some now |}.

Definition mark_failed (p : Policy) : Policy :=
  {| pol_id := pol_id p; pol_stateId := pol_stateId p;
     pol_stateName := pol_stateName p; pol_title := pol_title p;
     pol_status := failed; pol_processedAt := pol_processedAt p |}.

(** The [try] block of one loop iteration, once the policy is loaded. *)
Definition ingest_policy (job : IngestionJob) (policy : Policy) : M unit :=
  let* buffer := resolveBuffer job in
  let* processed :=
    call_processAndStorePDF buffer (job_policyId job) (pol_stateId policy)
      (pol_stateName policy) (pol_title policy) in
  policyChunk_createMany (job_policyId job) (processed_chunks processed) ;;
  extractPolicyFacts (job_policyId job) ;;
  let* now := get clock in
  policy_update (job_policyId job) (mark_completed now).

(** The [try] block of one loop iteration. *)
Definition ingest (job : IngestionJob) : M unit :=
  let* found := policy_findUnique (job_policyId job) in
  match found with
  | None => throw (Error ("Policy " ++ job_policyId job ++ " not found"))
  | Some policy => ingest_policy job policy
  end.

(** The [catch] block. *)
Definition on_failure (job : IngestionJob) (error : exn) : M unit :=
  console_error ("❌ Failed processing policy " ++ job_policyId job ++ ":") ;;
  policy_update (job_policyId job) mark_failed.

(** The [finally] block. *)
Definition cleanup (job : IngestionJob) : M unit :=
  match job_deleteFileAfter job, job_filePath job with
  | Some true, Some path =>
      if bool_decide (path = "") then ret tt
      else try_catch (fs_unlink path)
             (fun unlinkError =>
                console_warn ("⚠️ Failed to delete temp file " ++ path ++ ":"))
  | _, _ => ret tt
  end.

Definition guarded_ingest (job : IngestionJob) : M unit :=
  try_catch (ingest job) (on_failure job).

Definition process_job (job : IngestionJob) : M unit :=
  try_finally (guarded_ingest job) (cleanup job).

(** The [while (jobQueue.length > 0)] loop; [None] when the fuel runs out.
    A thrown error leaves the loop. *)
Fixpoint drain (fuel : nat) (w : World) : option (Outcome unit * World) :=
  match fuel with
  | O => None
  | S fuel' =>
      match jobQueue w with
      | [] => Some (Ok tt, w)
      | job :: rest =>
          match (set_jobQueue rest ;; process_job job) w with
          | (Ok _, w') => drain fuel' w'
          | (Throw e, w') => Some (Throw e, w')
          end
      end
  end.

Definition processQueue_fuel (fuel : nat) (w : World)
    : option (Outcome unit * World) :=
  if isProcessing w then Some (Ok tt, w)
  else
    match drain fuel (snd (set_isProcessing true w)) with
    | Some (Ok _, w') => Some (set_isProcessing false w')
    | Some (Throw e, w') => Some (Throw e, w')
    | None => None
    end.

Definition processQueue (w : World) : option (Outcome unit * World) :=
  processQueue_fuel (S (length (jobQueue w))) w.

(** [queuePolicyProcessing]: push the job, then [void processQueue()]; a
    rejection of that promise is seen by nobody. *)
Definition queuePolicyProcessing (policyId : string) (buffer : option string)
    (filePath : option string) (deleteFileAfter : option bool) (w : World)
    : option World :=
  let job := {| job_policyId := policyId; job_buffer := buffer;
                job_filePath := filePath;
                job_deleteFileAfter := deleteFileAfter |} in
  snd <$> processQueue (snd (set_jobQueue (jobQueue w ++ [job]) w)).

(** ** Policy deletion: deletePolicy *)

Context `{D : Deletion}.

(** [prisma.policy.delete({ where: { id } })]: Prisma rejects a delete
    whose [where] matches no row; the schema decides what becomes of the
    policy's chunk and fact rows. *)
Definition policy_delete (id : string) : M unit :=
  fun w => match policies w !! id with
           | Some _ =>
               let (c, f) := on_policy_delete id (chunks w) (facts w) in
               (Ok tt,
                {| policies := delete id (policies w); chunks := c; facts := f;
                   index := index w; files := files w; clock := clock w;
                   jobQueue := jobQueue w; isProcessing := isProcessing w;
                   trace := trace w |})
           | None => (Throw record_not_found, w)
           end.

Definition call_deletePolicyEmbeddings (policyId : string) : M unit :=
  fun w => let (r, i) := deletePolicyEmbeddings (trace w) policyId (index w) in
           match set_index i w with (_, w1) => (r, w1) end.

Definition deletePolicy (policyId : string) : M unit :=
  try_catch
    (policy_delete policyId ;;
     call_deletePolicyEmbeddings policyId)
    (fun error =>
       console_error ("❌ Failed to delete policy " ++ policyId ++ ":") ;;
       throw error).

End Core.

(** ** The vector index service *)

Section ReferenceIndex.

(** The similarity the index ranks by (cosine similarity in the deployed
    index); only its use for ranking matters here. *)
Variable score : list Q -> list Q -> Q.

Definition matches_filter (f : option Filter) (e : VectorEntry) : bool :=
  match f with
  | None => true
  | Some (FieldIs k v) =>
      match entry_metadata e !! k with
      | Some (MString s) => bool_decide (s = v)
      | _ => false
      end
  | Some (FieldIn k vs) =>
      match entry_metadata e !! k with
      | Some (MString s) => bool_decide (s ∈ vs)
      | _ => false
      end
  end.

Definition candidates (f : option Filter) (idx : gmap string VectorEntry)
    : list (string * VectorEntry) :=
  filter (fun kv => matches_filter f (snd kv) = true) (map_to_list idx).

Definition scored (req : QueryRequest) (kv : string * VectorEntry) : ScoredRecord :=
  {| match_id := fst kv;
     match_score := Some (score (req_vector req) (entry_values (snd kv)));
     match_metadata := if req_includeMetadata req
                       then Some (entry_metadata (snd kv)) else None |}.

Definition by_score_desc (a b : ScoredRecord) : Q :=
  (default 0 (match_score b) - default 0 (match_score a))%Q.

(** Modelled from the spec: the index's [query] of section 4.2, which is
    outside the repository. The metadata filter restricts the candidates
    before ranking; up to [topK] nearest entries come back. *)
Definition mem_query (calls : list event) (req : QueryRequest)
    (idx : gmap string VectorEntry) : Outcome QueryResponse :=
  Ok {| matches :=
          Some (take (req_topK req)
                  (Array_sort by_score_desc
                     (map (scored req) (candidates (req_filter req) idx)))) |}.

(** Modelled from the spec: the index's [upsert] of section 4.2, which is
    outside the repository. The dimensionality is fixed for the whole index
    (it is created with [dimension: VECTOR_DIMENSIONS]); an upsert with a
    vector of another length is refused as a whole, otherwise each entry
    overwrites the entry with the same id. *)
Definition mem_upsert (calls : list event) (entries : list VectorEntry)
    (idx : gmap string VectorEntry) : Outcome unit * gmap string VectorEntry :=
  if forallb (fun e => Nat.eqb (length (entry_values e)) VECTOR_DIMENSIONS) entries
  then (Ok tt, foldl (fun m e => <[entry_id e := e]> m) idx entries)
  else (Throw (Error "Vector dimension does not match the dimension of the index"),
        idx).

(** Modelled from the spec: the index's [deleteByIds] of section 4.2, which
    is outside the repository. *)
Definition mem_deleteMany (calls : list event) (ids : list string)
    (idx : gmap string VectorEntry) : Outcome unit * gmap string VectorEntry :=
  (Ok tt, foldr delete idx ids).

Definition MemIndex : VectorIndex :=
  {| pinecone_query := mem_query;
     pinecone_upsert := mem_upsert;
     pinecone_deleteMany := mem_deleteMany |}.

End ReferenceIndex.

(** ** A small deployment, for the examples *)

Module Demo.

Fixpoint dot (u v : list Q) : Q :=
  match u, v with
  | x :: u', y :: v' => (x * y + dot u' v')%Q
  | _, _ => 0%Q
  end.

Definition unit_vector (first : Q) : list Q := first :: replicate 767 0%Q.

Definition meta (policy state title : string) (page : MetadataValue)
    : gmap string MetadataValue :=
  <["policyId" := MString policy]>
  (<["stateName" := MString state]>
  (<["policyTitle" := MString title]>
  (<["pageNumber" := page]>
  (<["content" := MString "Live video visits are covered."]> ∅)))).

Definition entry (id : string) (first : Q) (m : gmap string MetadataValue)
    : VectorEntry :=
  {| entry_id := id; entry_values := unit_vector first; entry_metadata := m |}.

Definition tx0 : VectorEntry :=
  entry "tx-chunk-0" 0.9 (meta "tx" "Texas" "Texas Medicaid" (MNumber 3)).
Definition tx1 : VectorEntry :=
  entry "tx-chunk-1" 0.8 (meta "tx" "Texas" "Texas Medicaid" (MNumber 4)).
Definition ny0 : VectorEntry :=
  entry "ny-chunk-0" 0.5 (meta "ny" "New York" "New York Medicaid" (MNumber 1)).

Definition vectors : gmap string VectorEntry :=
  <["tx-chunk-0" := tx0]> (<["tx-chunk-1" := tx1]> (<["ny-chunk-0" := ny0]> ∅)).

Definition texas : Policy :=
  {| pol_id := "tx"; pol_stateId := "state-tx"; pol_stateName := "Texas";
     pol_title := "Texas Medicaid"; pol_status := pending;
     pol_processedAt := None |}.

(** Scripted collaborators: the chat model always answers [reply]; the
    parser knows the texts of [parses]; embeddings are the first axis. *)
Definition env (reply : string) (parses : list (string * json)) : Env :=
  {| StringToNumber := fun _ => NaN;
     NumberToString := fun _ => "n";
     String_slice := fun s first last => String.substring first (last - first) s;
     JSON_parse := fun s => snd <$> find (fun kv => bool_decide (fst kv = s)) parses;
     generateEmbedding := fun _ _ => Ok (unit_vector 1);
     generateChatCompletion := fun _ _ _ => Ok reply;
     processAndStorePDF := fun _ _ _ _ _ _ idx =>
       (Ok {| processed_chunks := [] |}, idx);
     generate_id := fun n => "row";
     policyFact_accepts := fun _ => true;
     store_fault := fun _ _ => None;
     fs_fault := fun _ _ => None |}.

Definition world (idx : gmap string VectorEntry) (queue : list IngestionJob)
    : World :=
  {| policies := {["tx" := texas]}; chunks := []; facts := [];
     index := idx; files := {["/tmp/upload.pdf" := "%PDF-1.7"]}; clock := 7;
     jobQueue := queue; isProcessing := false; trace := [] |}.


(** A job for a policy the store does not hold, and one for Texas. *)
Definition ghost_job : IngestionJob :=
  {| job_policyId := "ghost"; job_buffer := Some "%PDF-1.7";
     job_filePath := None; job_deleteFileAfter := None |}.

Definition texas_job : IngestionJob :=
  {| job_policyId := "tx"; job_buffer := None;
     job_filePath := Some "/tmp/upload.pdf"; job_deleteFileAfter := Some true |}.




(** An entry of the wrong dimensionality. *)
Definition short_entry : VectorEntry :=
  {| entry_id := "tx-chunk-9"; entry_values := [0.1; 0.2; 0.3]%Q;
     entry_metadata := meta "tx" "Texas" "Texas Medicaid" (MNumber 1) |}.

Definition quoted (s : string) : string := DQ ++ s ++ DQ.

(** A model output that wraps its JSON in prose, and what it parses to. *)
Definition facts_json : string :=
  "{" ++ quoted "facts" ++ ": [{" ++ quoted "category" ++ ": " ++ quoted "consent"
  ++ ", " ++ quoted "field" ++ ": " ++ quoted "written" ++ ", " ++ quoted "value"
  ++ ": " ++ quoted "required" ++ ", " ++ quoted "confidence" ++ ": 0, "
  ++ quoted "page" ++ ": 2}]}".

Definition facts_reply : string :=
  "Here are the facts: " ++ facts_json ++ " I hope this helps.".

Definition consent_fact : json :=
  JObj [("category", JStr "consent"); ("field", JStr "written");
        ("value", JStr "required"); ("confidence", JNum 0); ("page", JNum 2)].

Definition facts_value : json := JObj [("facts", JArr [consent_fact])].

Definition facts_env : Env := env facts_reply [(facts_json, facts_value)].

Definition dot_index : VectorIndex := MemIndex dot.


(** What a search for Texas finds in [vectors]. *)
Definition texas_results : list SearchResult :=
  [ {| chunkId := "tx-chunk-0"; content := "Live video visits are covered.";
       pageNumber := Num 3; similarity := dot (unit_vector 1) (unit_vector 0.9);
       policyId := "tx"; stateName := "Texas"; policyTitle := "Texas Medicaid" |};
    {| chunkId := "tx-chunk-1"; content := "Live video visits are covered.";
       pageNumber := Num 4; similarity := dot (unit_vector 1) (unit_vector 0.8);
       policyId := "tx"; stateName := "Texas"; policyTitle := "Texas Medicaid" |} ].

(** Collaborators that are down: the embedding and chat services throw. *)
Definition offline : Env :=
  {| StringToNumber := fun _ => NaN;
     NumberToString := fun _ => "n";
     String_slice := fun s first last => String.substring first (last - first) s;
     JSON_parse := fun _ => None;
     generateEmbedding := fun _ _ => Throw (Error "connect ECONNREFUSED");
     generateChatCompletion := fun _ _ _ => Throw (Error "connect ECONNREFUSED");
     processAndStorePDF := fun _ _ _ _ _ _ idx =>
       (Ok {| processed_chunks := [] |}, idx);
     generate_id := fun n => "row";
     policyFact_accepts := fun _ => true;
     store_fault := fun _ _ => None;
     fs_fault := fun _ _ => None |}.

(** A PDF processor that finds two pages. *)
Definition two_pages : list ProcessedChunk :=
  [ {| pc_content := "Live video visits are covered."; pc_pageNumber := 1;
       pc_chunkIndex := 0 |};
    {| pc_content := "Written consent is required."; pc_pageNumber := 2;
       pc_chunkIndex := 1 |} ].

Definition paged_env : Env :=
  {| StringToNumber := fun _ => NaN;
     NumberToString := fun _ => "n";
     String_slice := fun s first last => String.substring first (last - first) s;
     JSON_parse := fun _ => None;
     generateEmbedding := fun _ _ => Ok (unit_vector 1);
     generateChatCompletion := fun _ _ _ => Ok "No facts.";
     processAndStorePDF := fun _ _ _ _ _ _ idx =>
       (Ok {| processed_chunks := two_pages |}, idx);
     generate_id := fun n => "row";
     policyFact_accepts := fun _ => true;
     store_fault := fun _ _ => None;
     fs_fault := fun _ _ => None |}.

(** A model output whose second fact is [null]. *)
Definition rule_json (field : string) : string :=
  "{" ++ quoted "category" ++ ": " ++ quoted "consent" ++ ", " ++ quoted "field"
  ++ ": " ++ quoted field ++ ", " ++ quoted "value" ++ ": " ++ quoted "required"
  ++ ", " ++ quoted "page" ++ ": 2}".

Definition rule (field : string) : json :=
  JObj [("category", JStr "consent"); ("field", JStr field);
        ("value", JStr "required"); ("page", JNum 2)].

Definition torn_json : string :=
  "{" ++ quoted "facts" ++ ": [" ++ rule_json "written" ++ ", null, "
  ++ rule_json "verbal" ++ "]}".

Definition torn_value : json :=
  JObj [("facts", JArr [rule "written"; JNull; rule "verbal"])].

Definition torn_env : Env := env torn_json [(torn_json, torn_value)].




(** A job that names a file to keep, and jobs that carry their bytes as
    well as a file path. *)
Definition kept_job : IngestionJob :=
  {| job_policyId := "tx"; job_buffer := None;
     job_filePath := Some "/tmp/upload.pdf"; job_deleteFileAfter := Some false |}.

Definition memory_job (bytes : string) : IngestionJob :=
  {| job_policyId := "tx"; job_buffer := Some bytes;
     job_filePath := Some "/tmp/upload.pdf"; job_deleteFileAfter := Some true |}.

(** A store that holds the full text of the first Texas chunk. *)
Definition tx_row : PolicyChunk :=
  {| chunk_id := "tx-chunk-0"; chunk_policyId := "tx";
     chunk_content := "Live video visits are covered when the patient consents.";
     chunk_pageNumber := 3; chunk_chunkIndex := 0 |}.

Definition archive : World :=
  {| policies := {["tx" := texas]}; chunks := [tx_row]; facts := [];
     index := vectors; files := ∅; clock := 7;
     jobQueue := []; isProcessing := false; trace := [] |}.


(** The schema cascades a policy's deletion to its rows; the embeddings
    service cannot be reached. *)
Definition unreachable : Deletion :=
  {| deletePolicyEmbeddings := fun _ _ idx =>
       (Throw (Error "Pinecone unreachable"), idx);
     on_policy_delete := fun id c f =>
       (filter (fun row => chunk_policyId row <> id) c,
        filter (fun row => fact_policyId row <> id) f) |}.



(** A store that rejects the calls [rejects] picks; the PDF processor
    finds two pages and the chat model finds no facts. *)
Definition flaky_env (rejects : StoreCall -> bool) : Env :=
  {| StringToNumber := fun _ => NaN;
     NumberToString := fun _ => "n";
     String_slice := fun s first last => String.substring first (last - first) s;
     JSON_parse := fun _ => None;
     generateEmbedding := fun _ _ => Ok (unit_vector 1);
     generateChatCompletion := fun _ _ _ => Ok "No facts.";
     processAndStorePDF := fun _ _ _ _ _ _ idx =>
       (Ok {| processed_chunks := two_pages |}, idx);
     generate_id := fun n => "row";
     policyFact_accepts := fun _ => true;
     store_fault := fun _ call =>
       if rejects call then Some (Error "Can't reach database server") else None;
     fs_fault := fun _ _ => None |}.

Definition is_findMany (call : StoreCall) : bool :=
  match call with PolicyChunkFindMany _ => true | _ => false end.

Definition is_createMany (call : StoreCall) : bool :=
  match call with PolicyChunkCreateMany _ _ => true | _ => false end.

Definition is_update (call : StoreCall) : bool :=
  match call with PolicyUpdate _ => true | _ => false end.

End Demo.

(** * Vocabulary of the properties *)

(** The events a computation added to the trace. *)
Definition new_events (w w' : World) : list event :=
  drop (length (trace w)) (trace w').

Definition is_chat (e : event) : bool :=
  match e with EvChat _ _ => true | _ => false end.


Definition search_request (emb : list Q) (stateFilter : option (list string))
    (topK : nat) : QueryRequest :=
  {| req_vector := emb; req_topK := 2 * topK; req_includeMetadata := true;
     req_filter := state_filter stateFilter |}.

(** The spec's formula for the confidence, over the similarities of the
    retained results: [min(average × 1.2, 1.0)]. *)
Definition Qsum (l : list Q) : Q := foldr Qplus 0%Q l.

Definition average (l : list Q) : Q :=
  (Qsum l / inject_Z (Z.of_nat (length l)))%Q.

Definition spec_confidence (similarities : list Q) : Q :=
  Qmin (average similarities * 1.2) 1.



Definition desc (a b : SearchResult) : Prop := (similarity b <= similarity a)%Q.

Definition policy_filter (policyId : string) : option Filter :=
  Some (FieldIs "policyId" policyId).



Definition unlink_warning (path : string) : event :=
  EvConsole LWarn ("⚠️ Failed to delete temp file " ++ path ++ ":").

(** A policy whose ingestion has ended, one way or the other. *)
Definition settled (id : string) (w : World) : Prop :=
  exists p, policies w !! id = Some p /\
            (pol_status p = completed \/ pol_status p = failed).

(** A computation that changes neither the policies nor the queue nor the
    worker flag. *)
Definition quiet {A} (m : M A) : Prop :=
  forall w, policies (snd (m w)) = policies w /\
            jobQueue (snd (m w)) = jobQueue w /\
            isProcessing (snd (m w)) = isProcessing w.

(** An iteration for policy [id] changes neither the queue nor the worker
    flag nor any other policy. *)
Definition untouched (id : string) (w w' : World) : Prop :=
  jobQueue w' = jobQueue w /\
  isProcessing w' = isProcessing w /\
  forall k, k <> id -> policies w' !! k = policies w !! k.

Definition keeps (id : string) {A} (m : M A) : Prop :=
  forall w, untouched id w (snd (m w)).

(** The policy is in the store: the [try] part either completes it or
    throws with the policies as they were. *)
Definition completes (id : string) (p : Policy) (m : M unit) : Prop :=
  forall w, policies w !! id = Some p ->
    match fst (m w) with
    | Ok _ => exists now,
        policies (snd (m w)) = <[id := mark_completed now p]> (policies w)
    | Throw _ => policies (snd (m w)) = policies w
    end.

(** The store rejects no status update of a policy that exists. *)
Definition updates_accepted `{E : Env} : Prop :=
  forall calls id, store_fault calls (PolicyUpdate id) = None.

(** Everything but the trace is as it was: the relational tables, the
    index, the files, the clock, the queue and the worker flag. *)
Definition same_stores (w w' : World) : Prop :=
  policies w' = policies w /\ chunks w' = chunks w /\ facts w' = facts w /\
  index w' = index w /\ files w' = files w /\ clock w' = clock w /\
  jobQueue w' = jobQueue w /\ isProcessing w' = isProcessing w.

(** The candidates of an index answer that clear the threshold, as typed
    results, in the answer's order. *)
Definition qualifying `{E : Env} (resp : QueryResponse) : list SearchResult :=
  map toSearchResult
    (filter (fun m => passes_threshold m = true) (default [] (matches resp))).

(** Whether a character occurs in a string. *)
Fixpoint mentions (c : ascii) (s : string) : bool :=
  match s with
  | EmptyString => false
  | String d rest => Ascii.eqb d c || mentions c rest
  end.

(** A computation that relates every world to the world it leaves. *)
Definition preserves (R : World -> World -> Prop) {A} (m : M A) : Prop :=
  forall w, R w (snd (m w)).

(** An event that is no file read. *)
Definition not_a_read (e : event) : Prop :=
  match e with EvReadFile _ => False | _ => True end.

(** The trace grew by events that are no file reads. *)
Definition reads_no_file (w w' : World) : Prop :=
  exists events : list event,
    trace w' = (trace w ++ events)%list /\ Forall not_a_read events.

(** The chunk rows [policyChunk_createMany] makes of a processor's output,
    for a table that holds [n] rows. *)
Definition chunk_rows `{E : Env} (n : nat) (policyId : string)
    (data : list ProcessedChunk) : list PolicyChunk :=
  imap (fun i chunk =>
          {| chunk_id := generate_id (n + i);
             chunk_policyId := policyId;
             chunk_content := pc_content chunk;
             chunk_pageNumber := pc_pageNumber chunk;
             chunk_chunkIndex := pc_chunkIndex chunk |}) data.





(** * Properties *)

Ltac run_m :=
  unfold try_catch, try_finally, bind, ret, throw, lift_outcome, get,
    console_error, console_warn, emit, set_index, set_policies, set_chunks,
    set_facts, set_files, set_jobQueue, set_isProcessing in *;
  simpl in *.

Section Properties.
Context `{I : VectorIndex} `{E : Env}.

(** *** Facts about the ranking pipeline *)

Lemma sort_insert_perm {A} (cmp : A -> A -> Q) x l :
  Permutation (x :: l) (sort_insert cmp x l).
Proof.
  induction l as [|y l IH]; simpl; [reflexivity|].
  destruct (Qlt_le_dec 0 (cmp x y)); [|reflexivity].
  rewrite perm_swap. now apply perm_skip.
Qed.

Lemma Array_sort_perm {A} (cmp : A -> A -> Q) l :
  Permutation l (Array_sort cmp l).
Proof.
  induction l as [|x l IH]; simpl; [reflexivity|].
  etransitivity; [apply perm_skip, IH|apply sort_insert_perm].
Qed.

Lemma Array_sort_length {A} (cmp : A -> A -> Q) l :
  length (Array_sort cmp l) = length l.
Proof. symmetry. apply Permutation_length, Array_sort_perm. Qed.

Lemma sort_insert_desc x l :
  StronglySorted desc l -> StronglySorted desc (sort_insert by_similarity_desc x l).
Proof.
  induction 1 as [|y l Hs IH Hall]; simpl.
  - repeat constructor.
  - destruct (Qlt_le_dec 0 (by_similarity_desc x y)) as [Hlt|Hle].
    + constructor; [exact IH|].
      eapply Permutation_Forall; [apply sort_insert_perm|].
      constructor; [|exact Hall].
      unfold desc, by_similarity_desc in *.
      apply Qlt_le_weak, Qlt_minus_iff. exact Hlt.
    + assert (Hxy : desc x y).
      { unfold desc, by_similarity_desc in *.
        apply Qnot_lt_le. intros Hc. apply Qlt_minus_iff in Hc.
        exact (Qlt_not_le _ _ Hc Hle). }
      constructor; [constructor; assumption|].
      constructor; [exact Hxy|].
      eapply Forall_impl; [exact Hall|].
      intros z Hz. unfold desc in *. eapply Qle_trans; eassumption.
Qed.

Lemma Array_sort_desc l : StronglySorted desc (Array_sort by_similarity_desc l).
Proof.
  induction l as [|x l IH]; simpl; [constructor|].
  now apply sort_insert_desc.
Qed.







(** *** hybridSearch *)

Lemma hybridSearch_inv query stateFilter topK w results w' :
  hybridSearch query stateFilter topK w = (Ok results, w') ->
  exists emb resp,
    generateEmbedding (trace w) query = Ok emb /\
    pinecone_query (trace w ++ [EvEmbed query])
      (search_request emb stateFilter topK) (index w) = Ok resp /\
    results = rank topK (default [] (matches resp)) /\
    new_events w w' =
      [EvEmbed query; EvIndexQuery (search_request emb stateFilter topK)].
Proof.
  unfold hybridSearch, queryVectors, pineconeIndex_query, call_generateEmbedding,
    search_request.
  run_m. intros H.
  destruct (generateEmbedding (trace w) query) as [emb|] eqn:Hemb;
    simpl in H; [|discriminate].
  replace (topK + (topK + 0)) with (topK * 2) by lia.
  destruct (pinecone_query _ _ _) as [resp|] eqn:Hq; simpl in H; [|discriminate].
  injection H as <- <-. exists emb, resp.
  split; [reflexivity|]. split; [exact Hq|]. split; [reflexivity|].
  unfold new_events. simpl. rewrite <- app_assoc. simpl.
  now rewrite drop_app_length.
Qed.



(** *** ragQuery *)

Lemma ragQuery_after_search query stateFilter history w results w1 :
  hybridSearch query stateFilter TOP_K_RESULTS w = (Ok results, w1) ->
  results <> [] ->
  ragQuery query stateFilter history w =
    try_catch
      (let* fullChunks := policyChunk_findMany_in (map chunkId results) in
       let* answer := call_generateChatCompletion
                        (rag_messages query history fullChunks results) rag_options in
       ret {| answer := answer; confidence := rag_confidence results;
              citations := map (to_citation fullChunks) results;
              suggestedQueries := None |})
      (fun error => console_error "Error in RAG query:" ;;
                    throw (Error "Failed to generate answer")) w1.
Proof.
  intros Hs Hne. unfold ragQuery, try_catch at 1, bind at 1. rewrite Hs.
  destruct results as [|r rs]; [contradiction|]. reflexivity.
Qed.

(** When the store answers the read of the chunks the results name. *)
Lemma ragQuery_after_read query stateFilter history w results w1 :
  hybridSearch query stateFilter TOP_K_RESULTS w = (Ok results, w1) ->
  results <> [] ->
  store_fault (trace w1) (PolicyChunkFindMany (map chunkId results)) = None ->
  ragQuery query stateFilter history w =
    try_catch
      (let fullChunks := filter (fun c => chunk_id c ∈ map chunkId results) (chunks w1) in
       let* answer := call_generateChatCompletion
                        (rag_messages query history fullChunks results) rag_options in
       ret {| answer := answer; confidence := rag_confidence results;
              citations := map (to_citation fullChunks) results;
              suggestedQueries := None |})
      (fun error => console_error "Error in RAG query:" ;;
                    throw (Error "Failed to generate answer")) w1.
Proof.
  intros Hs Hne Hread. rewrite (ragQuery_after_search _ _ _ _ _ _ Hs Hne).
  unfold policyChunk_findMany_in, store_call, try_catch, bind, get.
  now rewrite Hread.
Qed.

(** When the store rejects that read. *)
Lemma ragQuery_read_rejected query stateFilter history w results w1 cause :
  hybridSearch query stateFilter TOP_K_RESULTS w = (Ok results, w1) ->
  results <> [] ->
  store_fault (trace w1) (PolicyChunkFindMany (map chunkId results)) = Some cause ->
  ragQuery query stateFilter history w =
    (Throw (Error "Failed to generate answer"),
     snd (console_error "Error in RAG query:" w1)).
Proof.
  intros Hs Hne Hread. rewrite (ragQuery_after_search _ _ _ _ _ _ Hs Hne).
  unfold policyChunk_findMany_in, store_call, try_catch, bind, get.
  now rewrite Hread.
Qed.

(** C3. When [hybridSearch] returns the empty list, [ragQuery] returns in
    the world the search left, without a call to the chat model, the
    response of [rag.ts]: confidence 0, no citations, the answer that no
    relevant information was found and the three suggested queries. *)
Theorem ragQuery_no_results query stateFilter history w w1 :
  hybridSearch query stateFilter TOP_K_RESULTS w = (Ok [], w1) ->
  exists resp,
    ragQuery query stateFilter history w = (Ok resp, w1) /\
    confidence resp = 0%Q /\
    citations resp = [] /\
    answer resp
    = "I couldn't find relevant information to answer your question. Try rephrasing or asking about specific telehealth modalities, billing codes, or state requirements." /\
    suggestedQueries resp
    = Some [ "What are the live video requirements?";
             "Does this state allow store-and-forward?";
             "What are the consent requirements?" ] /\
    Forall (fun e => is_chat e = false) (new_events w w1).
Proof.
  intros Hs. exists no_results_response.
  split.
  - unfold ragQuery, try_catch, bind. now rewrite Hs.
  - repeat (split; [reflexivity|]).
    apply hybridSearch_inv in Hs as (emb & resp & _ & _ & _ & ->).
    repeat constructor.
Qed.

Lemma fold_left_similarity rs acc :
  (fold_left (fun sum r => sum + similarity r) rs acc
   == acc + Qsum (map similarity rs))%Q.
Proof.
  revert acc. induction rs as [|r rs IH]; intros acc; simpl.
  - now rewrite Qplus_0_r.
  - rewrite IH. now rewrite Qplus_assoc.
Qed.

Lemma rag_confidence_spec results :
  (rag_confidence results == spec_confidence (map similarity results))%Q.
Proof.
  unfold rag_confidence, spec_confidence, average, sum_similarity.
  rewrite fold_left_similarity, Qplus_0_l, length_map.
  apply Q.min_compat; [reflexivity|]. unfold Qeq. reflexivity.
Qed.

Lemma rag_confidence_le_1 results : (rag_confidence results <= 1)%Q.
Proof.
  unfold rag_confidence. eapply Qle_trans; [apply Q.le_min_r|].
  unfold Qle. simpl. lia.
Qed.

(** C4. With a non-empty list of retained results, [ragQuery] returns as
    soon as the store read and the chat model answer, and the confidence of
    every response it returns is [min(average similarity × 1.2, 1.0)],
    hence at most 1. *)
Theorem ragQuery_confidence query stateFilter history w results w1 :
  hybridSearch query stateFilter TOP_K_RESULTS w = (Ok results, w1) ->
  results <> [] ->
  (forall text,
     store_fault (trace w1) (PolicyChunkFindMany (map chunkId results)) = None ->
     generateChatCompletion (trace w1)
       (rag_messages query history
          (filter (fun c => chunk_id c ∈ map chunkId results) (chunks w1)) results)
       rag_options = Ok text ->
     exists resp w', ragQuery query stateFilter history w = (Ok resp, w') /\
                     answer resp = text) /\
  (forall resp w',
     ragQuery query stateFilter history w = (Ok resp, w') ->
     (confidence resp == spec_confidence (map similarity results))%Q /\
     (confidence resp <= 1)%Q).
Proof.
  intros Hs Hne. split.
  - intros text Hread Hchat. rewrite (ragQuery_after_read _ _ _ _ _ _ Hs Hne Hread).
    unfold call_generateChatCompletion. run_m. rewrite Hchat. simpl. eauto.
  - intros resp w'. rewrite (ragQuery_after_search _ _ _ _ _ _ Hs Hne).
    unfold policyChunk_findMany_in, store_call, call_generateChatCompletion. run_m.
    destruct (store_fault _ _); simpl; [discriminate|].
    destruct (generateChatCompletion _ _ _); simpl; intros H; inversion H; subst.
    simpl. split; [apply rag_confidence_spec|apply rag_confidence_le_1].
Qed.

(** *** Metadata normalisation *)

Lemma rank_elem topK ms r :
  r ∈ rank topK ms ->
  exists m, m ∈ ms /\ passes_threshold m = true /\ r = toSearchResult m.
Proof.
  unfold rank. intros Hr. apply subseteq_take in Hr.
  apply list_elem_of_In in Hr.
  eapply Permutation_in in Hr; [|symmetry; apply Array_sort_perm].
  apply in_map_iff in Hr as (m & <- & Hm).
  apply list_elem_of_In, list_elem_of_filter in Hm as [Hp Hm].
  eauto.
Qed.



End Properties.

(** ** The gateway over the reference index *)

Section GatewayProperties.
Variable score : list Q -> list Q -> Q.

(** Whatever the index, [upsertVectors] hands it the entries as given and
    rethrows its error. *)
Lemma upsertVectors_propagates (I : VectorIndex) vectors w e idx :
  pinecone_upsert (trace w) vectors (index w) = (Throw e, idx) ->
  fst (upsertVectors vectors w) = Throw e /\
  new_events w (snd (upsertVectors vectors w))
  = [EvIndexUpsert vectors; EvConsole LError "Error upserting vectors to Pinecone:"].
Proof.
  unfold upsertVectors, pineconeIndex_upsert. run_m. intros ->. simpl.
  split; [reflexivity|]. unfold new_events. simpl.
  rewrite <- app_assoc. now rewrite drop_app_length.
Qed.

Lemma mem_upsert_mismatch calls vectors idx :
  Exists (fun e => length (entry_values e) <> VECTOR_DIMENSIONS) vectors ->
  exists e, mem_upsert calls vectors idx = (Throw e, idx).
Proof.
  intros Hex. unfold mem_upsert.
  destruct (forallb _ vectors) eqn:Hall; [|eauto].
  exfalso. rewrite forallb_forall in Hall.
  apply Exists_exists in Hex as (x & Hx & Hlen).
  apply list_elem_of_In, Hall, Nat.eqb_eq in Hx. contradiction.
Qed.

(** C6. On the index of section 4.2, an upsert that holds an entry whose
    vector is not of length 768 throws to the caller; the gateway passed the
    entries on as given, and the index contents are unchanged. *)
Theorem upsertVectors_dimension_mismatch vectors w :
  Exists (fun e => length (entry_values e) <> VECTOR_DIMENSIONS) vectors ->
  exists e w',
    upsertVectors (I := MemIndex score) vectors w = (Throw e, w') /\
    index w' = index w /\
    new_events w w'
    = [EvIndexUpsert vectors; EvConsole LError "Error upserting vectors to Pinecone:"].
Proof.
  intros Hex.
  destruct (mem_upsert_mismatch (trace w) vectors (index w) Hex) as [e He].
  destruct (upsertVectors_propagates (MemIndex score) vectors w e (index w) He)
    as [Hr Hev].
  exists e, (snd (upsertVectors (I := MemIndex score) vectors w)).
  split; [|split; [|exact Hev]].
  - rewrite <- Hr. now destruct (upsertVectors _ _).
  - unfold upsertVectors, pineconeIndex_upsert. run_m. now rewrite He.
Qed.

Lemma Array_sort_nil_inv {A} (cmp : A -> A -> Q) l : Array_sort cmp l = [] -> l = [].
Proof.
  intros H. apply Permutation_nil. rewrite <- H. symmetry. apply Array_sort_perm.
Qed.

Lemma enumerated_ids req f idx :
  map match_id (Array_sort by_score_desc (map (scored score req) (candidates f idx)))
  ≡ₚ map fst (candidates f idx).
Proof.
  rewrite <- (Array_sort_perm by_score_desc). now rewrite map_map.
Qed.

Lemma candidates_after_delete f idx ids :
  map fst (candidates f idx) ⊆ ids ->
  candidates f (foldr delete idx ids) = [].
Proof.
  intros Hsub. unfold candidates.
  destruct (filter _ (map_to_list (foldr delete idx ids))) as [|[k e] rest] eqn:Hf;
    [reflexivity|exfalso].
  assert (Hin : (k, e) ∈ filter (fun kv => matches_filter f (snd kv) = true)
                         (map_to_list (foldr delete idx ids)))
    by (rewrite Hf; left).
  apply list_elem_of_filter in Hin as [Hm Hin].
  apply elem_of_map_to_list, lookup_foldr_delete_Some in Hin as [Hni Hidx].
  apply Hni, Hsub, list_elem_of_In, in_map_iff.
  exists (k, e). split; [reflexivity|].
  apply list_elem_of_In, list_elem_of_filter. split; [exact Hm|].
  now apply elem_of_map_to_list.
Qed.

Lemma queryVectors_no_candidates queryVector topK f w :
  candidates f (index w) = [] ->
  fst (queryVectors (I := MemIndex score) queryVector topK f w) = Ok [].
Proof.
  unfold queryVectors, pineconeIndex_query. run_m. unfold mem_query. simpl.
  intros ->. simpl. now rewrite take_nil.
Qed.

Lemma deletePolicyVectors_run policyId w :
  length (candidates (policy_filter policyId) (index w)) <= 10000 ->
  let ids := map match_id
               (Array_sort by_score_desc
                  (map (scored score (enumeration_request policyId))
                     (candidates (policy_filter policyId) (index w)))) in
  exists w',
    deletePolicyVectors (I := MemIndex score) policyId w
    = (Ok {| deletedCount := length (candidates (policy_filter policyId) (index w)) |},
       w') /\
    index w' = foldr delete (index w) ids /\
    new_events w w'
    = EvIndexQuery (enumeration_request policyId)
      :: match ids with [] => [] | _ => [EvIndexDeleteMany ids] end.
Proof.
  intros Hle ids. subst ids.
  unfold deletePolicyVectors, pineconeIndex_query, pineconeIndex_deleteMany.
  run_m. unfold mem_query. simpl. fold (policy_filter policyId).
  rewrite take_ge by (now rewrite Array_sort_length, length_map).
  pose proof (Array_sort_length by_score_desc
                (map (scored score (enumeration_request policyId))
                   (candidates (policy_filter policyId) (index w)))) as Hlen.
  rewrite length_map in Hlen.
  destruct (Array_sort by_score_desc _) as [|m ms]; simpl in *.
  - rewrite <- Hlen. eexists. split; [reflexivity|]. split; [reflexivity|].
    unfold new_events. simpl. now rewrite drop_app_length.
  - rewrite <- Hlen. eexists. split; [reflexivity|]. split; [reflexivity|].
    unfold new_events. simpl. rewrite <- app_assoc. now rewrite drop_app_length.
Qed.

(** C7. [deletePolicyVectors] sends one filter-only query (all-zero
    vector of 768 dimensions, ceiling 10000, the policy filter) and then
    deletes the ids it enumerated. On the index of section 4.2, when the
    policy has at most 10000 entries, it reports their number and any later
    query with the same policy filter finds no candidate. *)
Theorem deletePolicyVectors_then_query_empty policyId w :
  length (candidates (policy_filter policyId) (index w)) <= 10000 ->
  exists w' ids,
    deletePolicyVectors (I := MemIndex score) policyId w
    = (Ok {| deletedCount := length (candidates (policy_filter policyId) (index w)) |},
       w') /\
    ids ≡ₚ map fst (candidates (policy_filter policyId) (index w)) /\
    new_events w w'
    = EvIndexQuery (enumeration_request policyId)
      :: match ids with [] => [] | _ => [EvIndexDeleteMany ids] end /\
    req_vector (enumeration_request policyId) = replicate 768 0%Q /\
    req_topK (enumeration_request policyId) = 10000 /\
    forall queryVector topK,
      fst (queryVectors (I := MemIndex score) queryVector topK
             (policy_filter policyId) w') = Ok [].
Proof.
  intros Hle.
  destruct (deletePolicyVectors_run policyId w Hle) as (w' & Hrun & Hidx & Hev).
  pose proof (enumerated_ids (enumeration_request policyId)
                (policy_filter policyId) (index w)) as Hids.
  eexists w', _. split; [exact Hrun|]. split; [exact Hids|].
  split; [exact Hev|]. split; [reflexivity|]. split; [reflexivity|].
  intros queryVector topK. apply queryVectors_no_candidates.
  rewrite Hidx. apply candidates_after_delete.
  intros k Hk. now rewrite Hids.
Qed.


Lemma rank_state_filter `{E : Env} req names topK idx r :
  req_includeMetadata req = true ->
  r ∈ rank topK
        (take (req_topK req)
           (Array_sort by_score_desc
              (map (scored score req)
                 (candidates (Some (FieldIn "stateName" names)) idx)))) ->
  stateName r ∈ names.
Proof.
  intros Hmeta Hr. apply rank_elem in Hr as (m & Hm & _ & ->).
  apply subseteq_take, list_elem_of_In in Hm.
  eapply Permutation_in in Hm; [|symmetry; apply Array_sort_perm].
  apply in_map_iff in Hm as ([k e] & <- & Hc).
  apply list_elem_of_In, list_elem_of_filter in Hc as [Hf _].
  simpl in *. rewrite Hmeta. simpl.
  destruct (entry_metadata e !! "stateName") as [[s| | |]|]; try discriminate.
  now apply bool_decide_eq_true in Hf.
Qed.

(** X4. On the index of section 4.2, a search restricted to a set of state
    names returns only results whose [stateName] is in the set. *)
Theorem hybridSearch_state_filter `{E : Env} query names topK w results w' r :
  hybridSearch (I := MemIndex score) query (Some names) topK w = (Ok results, w') ->
  r ∈ results ->
  stateName r ∈ names.
Proof.
  intros H Hr.
  apply (hybridSearch_inv (I := MemIndex score)) in H
    as (emb & resp & _ & Hq & -> & _).
  simpl in Hq. unfold mem_query in Hq. injection Hq as <-. simpl in Hr.
  eapply rank_state_filter; [|exact Hr]. reflexivity.
Qed.

End GatewayProperties.

(** ** Fact extraction and the ingestion queue *)

Create HintDb quiet.

Section IngestionProperties.
Context `{E : Env}.

(** *** extractPolicyFacts *)

Lemma extractPolicyFacts_after_chat policyId policy w raw :
  policies w !! policyId = Some policy ->
  generateChatCompletion (trace w)
    (extraction_messages policy (filter (fun c => chunk_policyId c = policyId) (chunks w)))
    extraction_options = Ok raw ->
  exists w1,
    new_events w w1
    = [EvChat (extraction_messages policy
                 (filter (fun c => chunk_policyId c = policyId) (chunks w)))
         extraction_options] /\
    facts w1 = facts w /\
    extractPolicyFacts policyId w =
    try_catch
      (let* result := parse_extraction raw in
       let* found_facts := lift_outcome (get_prop result "facts") in
       match found_facts with
       | Some (JArr items) => store_facts policy items
       | _ => ret tt
       end)
      (fun error => console_error "Error extracting policy facts:" ;;
                    throw (Error "Failed to extract policy facts")) w1.
Proof.
  intros Hp Hchat. eexists. split; [|split]; cycle 2.
  - unfold extractPolicyFacts, policy_findUnique, policy_chunks,
      call_generateChatCompletion.
    unfold try_catch at 1, bind at 1, get at 1. rewrite Hp.
    unfold try_catch at 1, bind at 1, bind at 1, get at 1.
    unfold emit at 1. rewrite Hchat. reflexivity.
  - unfold new_events. simpl. now rewrite drop_app_length.
  - reflexivity.
Qed.



Lemma store_facts_rows policy items :
  Forall (fun fact => exists row, fact_data policy fact = Ok row /\
                                  policyFact_accepts row = true) items ->
  forall w, exists w' rows,
    store_facts policy items w = (Ok tt, w') /\
    facts w' = (facts w ++ rows)%list /\
    trace w' = trace w /\
    Forall2 (fun fact row => fact_data policy fact = Ok row) items rows.
Proof.
  induction 1 as [|fact items (row & Hrow & Hacc) _ IH]; intros w; simpl.
  - exists w, []. rewrite app_nil_r. repeat split; constructor.
  - unfold store_fact, policyFact_create. run_m. rewrite Hrow. simpl.
    rewrite Hacc. simpl.
    edestruct IH as (w' & rows & -> & Hf & Ht & Hall).
    exists w', (row :: rows). simpl in *. split; [reflexivity|].
    split; [now rewrite Hf, <- app_assoc|]. split; [exact Ht|].
    now constructor.
Qed.




(** *** What an iteration leaves alone *)

Lemma quiet_ret {A} (a : A) : quiet (ret a).
Proof. now intros w. Qed.

Lemma quiet_throw {A} e : quiet (@throw A e).
Proof. now intros w. Qed.

Lemma quiet_lift_outcome {A} (o : Outcome A) : quiet (lift_outcome o).
Proof. now intros w. Qed.

Lemma quiet_get {A} (f : World -> A) : quiet (get f).
Proof. now intros w. Qed.

Lemma quiet_emit e : quiet (emit e).
Proof. now intros w. Qed.

Lemma quiet_bind {A B} (m : M A) (k : A -> M B) :
  quiet m -> (forall a, quiet (k a)) -> quiet (bind m k).
Proof.
  intros Hm Hk w. unfold bind. specialize (Hm w).
  destruct (m w) as [[a|e] w1]; simpl in *; [|exact Hm].
  destruct (Hk a w1) as (-> & -> & ->). exact Hm.
Qed.

Lemma quiet_try_catch {A} (m : M A) (h : exn -> M A) :
  quiet m -> (forall e, quiet (h e)) -> quiet (try_catch m h).
Proof.
  intros Hm Hh w. unfold try_catch. specialize (Hm w).
  destruct (m w) as [[a|e] w1]; simpl in *; [exact Hm|].
  destruct (Hh e w1) as (-> & -> & ->). exact Hm.
Qed.

Lemma quiet_try_finally {A} (m : M A) (c : M unit) :
  quiet m -> quiet c -> quiet (try_finally m c).
Proof.
  intros Hm Hc w. unfold try_finally. specialize (Hm w).
  destruct (m w) as [r w1]. specialize (Hc w1).
  destruct (c w1) as [[[]|e] w2]; simpl in *;
    destruct Hc as (-> & -> & ->); exact Hm.
Qed.

#[local] Hint Resolve quiet_ret quiet_throw quiet_lift_outcome quiet_get
  quiet_emit : quiet.

Ltac quiet_step :=
  first [ apply quiet_bind; [|intros ?]
        | apply quiet_try_catch; [|intros ?]
        | apply quiet_try_finally
        | solve [auto with quiet]
        | (intros ?; run_m; tauto) ].

Lemma quiet_store_call call : quiet (store_call call).
Proof. intros w. unfold store_call. now destruct (store_fault _ _). Qed.

Lemma quiet_console_error text : quiet (console_error text).
Proof. apply quiet_emit. Qed.

Lemma quiet_console_warn text : quiet (console_warn text).
Proof. apply quiet_emit. Qed.

Lemma quiet_set_files f : quiet (set_files f).
Proof. now intros w. Qed.

Lemma quiet_set_chunks c : quiet (set_chunks c).
Proof. now intros w. Qed.

Lemma quiet_set_facts f : quiet (set_facts f).
Proof. now intros w. Qed.

#[local] Hint Resolve quiet_store_call quiet_console_error quiet_console_warn
  quiet_set_files quiet_set_chunks quiet_set_facts : quiet.

Lemma quiet_fs_readFile path : quiet (fs_readFile path).
Proof.
  unfold fs_readFile. repeat quiet_step.
  destruct (fs_fault _ _); [auto with quiet|].
  match goal with |- context [lookup ?k ?m] => destruct (lookup k m) end;
    auto with quiet.
Qed.

Lemma quiet_fs_unlink path : quiet (fs_unlink path).
Proof.
  unfold fs_unlink. repeat quiet_step.
  destruct (fs_fault _ _); [auto with quiet|].
  match goal with |- context [lookup ?k ?m] => destruct (lookup k m) end;
    auto with quiet.
Qed.

Lemma quiet_resolveBuffer job : quiet (resolveBuffer job).
Proof.
  unfold resolveBuffer.
  destruct (job_buffer job); [auto with quiet|].
  destruct (job_filePath job); [|auto with quiet].
  case_bool_decide; [auto with quiet|apply quiet_fs_readFile].
Qed.

Lemma quiet_call_processAndStorePDF buffer policyId stateId stateName title :
  quiet (call_processAndStorePDF buffer policyId stateId stateName title).
Proof.
  intros w. unfold call_processAndStorePDF. simpl.
  now destruct (processAndStorePDF _ _ _ _ _ _ _).
Qed.

Lemma quiet_call_generateChatCompletion messages opts :
  quiet (call_generateChatCompletion messages opts).
Proof. now intros w. Qed.

Lemma quiet_policyChunk_createMany policyId data :
  quiet (policyChunk_createMany policyId data).
Proof. unfold policyChunk_createMany. repeat quiet_step. Qed.

Lemma quiet_policyFact_create data : quiet (policyFact_create data).
Proof. intros w. unfold policyFact_create. now destruct (policyFact_accepts data). Qed.

Lemma quiet_store_facts policy items : quiet (store_facts policy items).
Proof.
  induction items as [|fact items IH]; simpl; [auto with quiet|].
  apply quiet_bind; [|intros _; exact IH].
  unfold store_fact. apply quiet_bind; [auto with quiet|].
  intros data. apply quiet_policyFact_create.
Qed.

Lemma quiet_parse_extraction raw : quiet (parse_extraction raw).
Proof.
  unfold parse_extraction. apply quiet_try_catch.
  - destruct (match_braces raw); [destruct (JSON_parse _)|]; auto with quiet.
  - intros e. repeat quiet_step.
Qed.

Lemma quiet_extractPolicyFacts policyId : quiet (extractPolicyFacts policyId).
Proof.
  unfold extractPolicyFacts, policy_findUnique, policy_chunks.
  apply quiet_try_catch; [|intros e; repeat quiet_step].
  apply quiet_bind; [auto with quiet|]. intros [policy|]; [|auto with quiet].
  apply quiet_bind; [auto with quiet|]. intros rows.
  apply quiet_bind; [apply quiet_call_generateChatCompletion|]. intros raw.
  apply quiet_bind; [apply quiet_parse_extraction|]. intros result.
  apply quiet_bind; [auto with quiet|]. intros [[]|]; auto with quiet.
  apply quiet_store_facts.
Qed.

Lemma quiet_cleanup job : quiet (cleanup job).
Proof.
  unfold cleanup.
  destruct (job_deleteFileAfter job) as [[]|], (job_filePath job);
    auto with quiet.
  case_bool_decide; [auto with quiet|].
  apply quiet_try_catch; [apply quiet_fs_unlink|]. intros e. auto with quiet.
Qed.

Lemma untouched_trans id w1 w2 w3 :
  untouched id w1 w2 -> untouched id w2 w3 -> untouched id w1 w3.
Proof.
  intros (Hq & Hf & Hp) (Hq' & Hf' & Hp'). split; [congruence|].
  split; [congruence|]. intros k Hk. now rewrite Hp', Hp.
Qed.

Lemma quiet_keeps id {A} (m : M A) : quiet m -> keeps id m.
Proof.
  intros Hm w. destruct (Hm w) as (Hp & Hq & Hf).
  split; [exact Hq|]. split; [exact Hf|]. intros k _. now rewrite Hp.
Qed.

Lemma keeps_bind id {A B} (m : M A) (k : A -> M B) :
  keeps id m -> (forall a, keeps id (k a)) -> keeps id (bind m k).
Proof.
  intros Hm Hk w. unfold bind. specialize (Hm w).
  destruct (m w) as [[a|e] w1]; simpl in *; [|exact Hm].
  eapply untouched_trans; [exact Hm|apply Hk].
Qed.

Lemma keeps_try_catch id {A} (m : M A) (h : exn -> M A) :
  keeps id m -> (forall e, keeps id (h e)) -> keeps id (try_catch m h).
Proof.
  intros Hm Hh w. unfold try_catch. specialize (Hm w).
  destruct (m w) as [[a|e] w1]; simpl in *; [exact Hm|].
  eapply untouched_trans; [exact Hm|apply Hh].
Qed.

Lemma keeps_try_finally id {A} (m : M A) (c : M unit) :
  keeps id m -> keeps id c -> keeps id (try_finally m c).
Proof.
  intros Hm Hc w. unfold try_finally. specialize (Hm w).
  destruct (m w) as [r w1]. specialize (Hc w1).
  destruct (c w1) as [[[]|e] w2]; simpl in *;
    eapply untouched_trans; eassumption.
Qed.

Lemma keeps_policy_update id data : keeps id (policy_update id data).
Proof.
  intros w. unfold policy_update, store_call, bind.
  destruct (policies w !! id) as [p|]; simpl; [|now repeat split].
  destruct (store_fault _ _); simpl; [now repeat split|].
  split; [reflexivity|]. split; [reflexivity|].
  intros k Hk. now apply lookup_insert_ne.
Qed.

Lemma keeps_guarded_ingest job : keeps (job_policyId job) (guarded_ingest job).
Proof.
  unfold guarded_ingest, ingest. apply keeps_try_catch.
  - apply keeps_bind; [apply quiet_keeps; unfold policy_findUnique; auto with quiet|].
    intros [policy|]; [|apply quiet_keeps; auto with quiet].
    unfold ingest_policy.
    apply keeps_bind; [apply quiet_keeps, quiet_resolveBuffer|]. intros buffer.
    apply keeps_bind; [apply quiet_keeps, quiet_call_processAndStorePDF|].
    intros processed.
    apply keeps_bind; [apply quiet_keeps, quiet_policyChunk_createMany|]. intros _.
    apply keeps_bind; [apply quiet_keeps, quiet_extractPolicyFacts|]. intros _.
    apply keeps_bind; [apply quiet_keeps; auto with quiet|]. intros now.
    apply keeps_policy_update.
  - intros e. unfold on_failure.
    apply keeps_bind; [apply quiet_keeps; auto with quiet|]. intros _.
    apply keeps_policy_update.
Qed.

Lemma keeps_process_job job : keeps (job_policyId job) (process_job job).
Proof.
  apply keeps_try_finally; [apply keeps_guarded_ingest|].
  apply quiet_keeps, quiet_cleanup.
Qed.

(** The [finally] block never throws. *)
Lemma cleanup_returns job w : fst (cleanup job w) = Ok tt.
Proof.
  unfold cleanup.
  destruct (job_deleteFileAfter job) as [[]|], (job_filePath job); try reflexivity.
  case_bool_decide; [reflexivity|].
  unfold fs_unlink. run_m.
  destruct (fs_fault (trace w) s); [reflexivity|].
  now destruct (files w !! s).
Qed.

Lemma process_job_outcome job w :
  fst (process_job job w) = fst (guarded_ingest job w) /\
  policies (snd (process_job job w)) = policies (snd (guarded_ingest job w)).
Proof.
  unfold process_job, try_finally.
  destruct (guarded_ingest job w) as [r w1]. simpl.
  pose proof (cleanup_returns job w1) as Hc.
  destruct (quiet_cleanup job w1) as (Hp & _ & _).
  destruct (cleanup job w1) as [[[]|e] w2]; simpl in *; [|discriminate].
  now split.
Qed.

(** X3. A policy other than the job's keeps its record, whatever happens to
    the job. *)
Lemma process_job_other_policy job w k :
  k <> job_policyId job ->
  policies (snd (process_job job w)) !! k = policies w !! k.
Proof. intros Hk. now apply (keeps_process_job job w). Qed.

Lemma completes_bind id p {A} (m : M A) (k : A -> M unit) :
  quiet m -> (forall a, completes id p (k a)) -> completes id p (bind m k).
Proof.
  intros Hm Hk w Hp. unfold bind. destruct (Hm w) as (Hpol & _ & _).
  destruct (m w) as [[a|e] w1]; simpl in *; [|exact Hpol].
  specialize (Hk a w1). rewrite Hpol in Hk. now apply Hk.
Qed.

Lemma completes_update id p now :
  completes id p (policy_update id (mark_completed now)).
Proof.
  intros w Hp. unfold policy_update, store_call, bind. rewrite Hp.
  destruct (store_fault _ _); simpl; [reflexivity|]. now exists now.
Qed.

Lemma completes_ingest_policy job p :
  completes (job_policyId job) p (ingest_policy job p).
Proof.
  unfold ingest_policy.
  apply completes_bind; [apply quiet_resolveBuffer|]. intros buffer.
  apply completes_bind; [apply quiet_call_processAndStorePDF|]. intros processed.
  apply completes_bind; [apply quiet_policyChunk_createMany|]. intros _.
  apply completes_bind; [apply quiet_extractPolicyFacts|]. intros _.
  apply completes_bind; [apply quiet_get|]. intros now.
  apply completes_update.
Qed.

(** What the guarded part of an iteration does to the record of a policy
    of the store: it completes it, or marks it failed, or, when the store
    rejects the [catch] block's update, leaves it and throws. *)
Lemma guarded_ingest_record job w p :
  policies w !! job_policyId job = Some p ->
  (fst (guarded_ingest job w) = Ok tt /\
   exists p',
     policies (snd (guarded_ingest job w)) = <[job_policyId job := p']> (policies w) /\
     ((exists now, p' = mark_completed now p) \/ p' = mark_failed p)) \/
  (exists e calls,
     fst (guarded_ingest job w) = Throw e /\
     store_fault calls (PolicyUpdate (job_policyId job)) = Some e /\
     policies (snd (guarded_ingest job w)) = policies w).
Proof.
  intros Hp. unfold guarded_ingest, try_catch.
  assert (Hi : ingest job w = ingest_policy job p w).
  { unfold ingest, bind, policy_findUnique, get. now rewrite Hp. }
  rewrite Hi. clear Hi.
  pose proof (completes_ingest_policy job p w Hp) as Hc.
  destruct (ingest_policy job p w) as [[[]|e] w1]; simpl in *.
  - left. split; [reflexivity|]. destruct Hc as [now Hc].
    exists (mark_completed now p). split; [exact Hc|]. left. now exists now.
  - unfold on_failure, policy_update, store_call. run_m. rewrite Hc, Hp.
    destruct (store_fault _ _) as [e'|] eqn:Hfault; simpl.
    + right. exists e'. eexists. split; [reflexivity|]. split; [exact Hfault|].
      reflexivity.
    + left. split; [reflexivity|]. exists (mark_failed p).
      split; [reflexivity|]. now right.
Qed.

Lemma guarded_ingest_present job w p :
  updates_accepted ->
  policies w !! job_policyId job = Some p ->
  fst (guarded_ingest job w) = Ok tt /\
  exists p',
    policies (snd (guarded_ingest job w)) = <[job_policyId job := p']> (policies w) /\
    (pol_status p' = completed \/ pol_status p' = failed).
Proof.
  intros Hacc Hp.
  destruct (guarded_ingest_record job w p Hp)
    as [(Hok & p' & Hins & Hst)|(e & calls & _ & Hfault & _)].
  - split; [exact Hok|]. exists p'. split; [exact Hins|].
    destruct Hst as [[now ->]| ->]; [now left|now right].
  - now rewrite Hacc in Hfault.
Qed.

(** The policy is not in the store: the [catch] block's update throws, and
    so does the iteration. *)
Lemma process_job_missing_policy job w :
  policies w !! job_policyId job = None ->
  fst (process_job job w) = Throw record_not_found.
Proof.
  intros Hp. destruct (process_job_outcome job w) as [-> _].
  unfold guarded_ingest, try_catch, ingest.
  unfold bind at 1, policy_findUnique, get. rewrite Hp. simpl.
  unfold on_failure, policy_update. run_m. now rewrite Hp.
Qed.

(** *** The worker loop *)

(** C8. For a job with a file path and the delete-after flag, the
    iteration ends with an unlink of that path, whether the guarded
    ingestion returned or threw; the iteration's outcome is the guarded
    ingestion's, also when the unlink fails (then a warning is logged);
    unless the file system refuses the call, the file is gone. *)
Theorem process_job_unlinks_temp_file job path w :
  job_deleteFileAfter job = Some true ->
  job_filePath job = Some path ->
  path <> "" ->
  let w0 := snd (guarded_ingest job w) in
  let w' := snd (process_job job w) in
  fst (process_job job w) = fst (guarded_ingest job w) /\
  (new_events w0 w' = [EvUnlink path] \/
   new_events w0 w' = [EvUnlink path; unlink_warning path]) /\
  (fs_fault (trace w0) path = None -> files w' !! path = None).
Proof.
  intros Hflag Hpath Hne. unfold process_job, try_finally.
  destruct (guarded_ingest job w) as [r w0]. simpl.
  unfold cleanup. rewrite Hflag, Hpath.
  rewrite bool_decide_eq_false_2 by exact Hne.
  unfold fs_unlink, unlink_warning, new_events. run_m.
  destruct (fs_fault (trace w0) path) as [e|]; simpl.
  - split; [reflexivity|]. split; [|discriminate].
    right. rewrite <- app_assoc. now rewrite drop_app_length.
  - destruct (files w0 !! path) as [bytes|] eqn:Hfile; simpl.
    + split; [reflexivity|]. split; [left; now rewrite drop_app_length|].
      intros _. apply lookup_delete_eq.
    + split; [reflexivity|]. split; [|intros _; exact Hfile].
      right. rewrite <- app_assoc. now rewrite drop_app_length.
Qed.


(** *** The loop as a whole *)

Lemma process_job_queue job w :
  jobQueue (snd (process_job job w)) = jobQueue w /\
  isProcessing (snd (process_job job w)) = isProcessing w.
Proof. destruct (keeps_process_job job w) as (Hq & Hf & _). now split. Qed.

Lemma drain_total fuel : forall w,
  length (jobQueue w) < fuel -> exists r, drain fuel w = Some r.
Proof.
  induction fuel as [|fuel IH]; intros w Hlen; [lia|]. simpl.
  destruct (jobQueue w) as [|job rest] eqn:Hq; [eauto|].
  unfold bind. simpl.
  match goal with |- context [process_job job ?w1] =>
    destruct (process_job_queue job w1) as [Hq1 _];
    destruct (process_job job w1) as [[[]|e] w2] end; [|eauto].
  simpl in *. apply IH. rewrite Hq1. lia.
Qed.

(** In the model the fuel [processQueue] takes from the length of the
    queue never runs out. *)
Lemma processQueue_fuel_suffices w : exists r, processQueue w = Some r.
Proof.
  unfold processQueue, processQueue_fuel.
  destruct (isProcessing w); [eauto|].
  destruct (drain_total (S (length (jobQueue w))) (snd (set_isProcessing true w)))
    as [[[[]|e] w'] ->]; simpl; eauto.
Qed.

Lemma process_job_present job w p :
  updates_accepted ->
  policies w !! job_policyId job = Some p ->
  fst (process_job job w) = Ok tt /\
  settled (job_policyId job) (snd (process_job job w)) /\
  (forall k, is_Some (policies w !! k) ->
             is_Some (policies (snd (process_job job w)) !! k)) /\
  (forall k, settled k w -> settled k (snd (process_job job w))).
Proof.
  intros Hacc Hp. destruct (process_job_outcome job w) as [Ho Hpol].
  destruct (guarded_ingest_present job w p Hacc Hp) as (Hok & p' & Hins & Hst).
  rewrite Ho, Hok. split; [reflexivity|]. unfold settled. rewrite Hpol, Hins.
  split; [exists p'; now rewrite lookup_insert_eq|]. split.
  - intros k Hk. destruct (decide (job_policyId job = k)) as [<-|Hne].
    + rewrite lookup_insert_eq. eauto.
    + now rewrite lookup_insert_ne.
  - intros k (q & Hq & Hs). destruct (decide (job_policyId job = k)) as [<-|Hne].
    + exists p'. now rewrite lookup_insert_eq.
    + exists q. now rewrite lookup_insert_ne.
Qed.

Lemma drain_present fuel : updates_accepted -> forall w,
  length (jobQueue w) < fuel ->
  Forall (fun job => is_Some (policies w !! job_policyId job)) (jobQueue w) ->
  exists w',
    drain fuel w = Some (Ok tt, w') /\
    jobQueue w' = [] /\
    isProcessing w' = isProcessing w /\
    Forall (fun job => settled (job_policyId job) w') (jobQueue w) /\
    (forall k, settled k w -> settled k w').
Proof.
  intros Hacc. induction fuel as [|fuel IH]; intros w Hlen Hall; [lia|]. simpl.
  destruct (jobQueue w) as [|job rest] eqn:Hq.
  - exists w. repeat split; [exact Hq|constructor|auto].
  - unfold bind. simpl.
    apply Forall_cons in Hall as [[p Hp] Hrest].
    match goal with |- context [process_job job ?w1] => set (w1' := w1) end.
    destruct (process_job_queue job w1') as [Hq1 Hf1].
    destruct (process_job_present job w1' p Hacc Hp) as (Hok & Hset & Hdom & Hkeep).
    destruct (process_job job w1') as [r w2]. simpl in *. subst r.
    destruct (IH w2) as (w' & -> & Hq' & Hf' & Hall' & Hkeep').
    + rewrite Hq1. simpl in Hlen. lia.
    + rewrite Hq1. eapply Forall_impl; [exact Hrest|]. intros j Hj. now apply Hdom.
    + exists w'. split; [reflexivity|]. split; [exact Hq'|].
      split; [now rewrite Hf', Hf1|]. split.
      * constructor; [now apply Hkeep'|]. now rewrite Hq1 in Hall'.
      * intros k Hk. now apply Hkeep', Hkeep.
Qed.

(** X1. When every queued job names a policy of the store and the store
    rejects no status update, [processQueue] empties the queue, clears the
    worker flag, and leaves the policy of every job completed or failed,
    whatever the other calls answer. *)
Theorem processQueue_drains w :
  updates_accepted ->
  isProcessing w = false ->
  Forall (fun job => is_Some (policies w !! job_policyId job)) (jobQueue w) ->
  exists w',
    processQueue w = Some (Ok tt, w') /\
    jobQueue w' = [] /\
    isProcessing w' = false /\
    Forall (fun job => settled (job_policyId job) w') (jobQueue w).
Proof.
  intros Hacc Hf Hall. unfold processQueue, processQueue_fuel. rewrite Hf.
  destruct (drain_present (S (length (jobQueue w))) Hacc
              (snd (set_isProcessing true w)))
    as (w' & -> & Hq & _ & Hset & _); [simpl; lia|exact Hall|].
  simpl. eexists. split; [reflexivity|]. split; [exact Hq|].
  split; [reflexivity|]. exact Hset.
Qed.

(** A job at the head of the queue whose policy is not in the store ends
    [processQueue] with an error: the worker flag stays set and the rest of
    the queue is never looked at. *)
Theorem processQueue_poisoned_head w job rest :
  isProcessing w = false ->
  jobQueue w = job :: rest ->
  policies w !! job_policyId job = None ->
  exists w',
    processQueue w = Some (Throw record_not_found, w') /\
    isProcessing w' = true /\
    jobQueue w' = rest /\
    processQueue w' = Some (Ok tt, w').
Proof.
  intros Hf Hq Hp. unfold processQueue at 1, processQueue_fuel. rewrite Hf, Hq.
  simpl. rewrite Hq. unfold bind. simpl.
  match goal with |- context [process_job job ?w1] => set (w1' := w1) end.
  pose proof (process_job_missing_policy job w1' Hp) as He.
  destruct (process_job_queue job w1') as [Hq1 Hf1].
  destruct (process_job job w1') as [r w2]. simpl in *. subst r.
  exists w2. split; [reflexivity|]. split; [exact Hf1|]. split; [exact Hq1|].
  unfold processQueue, processQueue_fuel. now rewrite Hf1.
Qed.

End IngestionProperties.

(** C1, the failing run. The queue holds a job for a policy id that is
    not in the store, then a job for Texas. The first job throws "not
    found"; the [catch] block's own update of the missing policy throws
    again, which leaves [processQueue] with the worker flag still set and
    the Texas job still queued and pending; every later [processQueue] and
    every later enqueue returns at once without processing anything. *)
Theorem processQueue_missing_policy_stalls (E : Env) :
  exists w',
    processQueue (Demo.world ∅ [Demo.ghost_job; Demo.texas_job])
    = Some (Throw record_not_found, w') /\
    trace w' = [EvConsole LError "❌ Failed processing policy ghost:"] /\
    isProcessing w' = true /\
    jobQueue w' = [Demo.texas_job] /\
    pol_status <$> policies w' !! "tx" = Some pending /\
    processQueue w' = Some (Ok tt, w') /\
    jobQueue <$> queuePolicyProcessing "tx" (Some "%PDF-1.7") None None w'
    = Some [Demo.texas_job;
            {| job_policyId := "tx"; job_buffer := Some "%PDF-1.7";
               job_filePath := None; job_deleteFileAfter := None |}].
Proof.
  eexists. split; [vm_compute; reflexivity|].
  repeat split; vm_compute; reflexivity.
Qed.


(** ** Retrieval: what it reads, how it fails, what it ranks *)

Section RetrievalProperties.
Context `{I : VectorIndex} `{E : Env}.

Lemma hybridSearch_stores query stateFilter topK w :
  same_stores w (snd (hybridSearch query stateFilter topK w)).
Proof.
  unfold hybridSearch, queryVectors, pineconeIndex_query, call_generateEmbedding.
  run_m.
  destruct (generateEmbedding (trace w) query); simpl;
    [destruct (pinecone_query _ _ _); simpl|]; repeat split.
Qed.

(** X5. Retrieval only reads: [hybridSearch] and [ragQuery] leave the
    relational tables, the vector index, the files, the queue and the
    worker flag as they found them, whether they return or throw. *)
Theorem retrieval_read_only query stateFilter history topK w :
  same_stores w (snd (hybridSearch query stateFilter topK w)) /\
  same_stores w (snd (ragQuery query stateFilter history w)).
Proof.
  split; [apply hybridSearch_stores|].
  pose proof (hybridSearch_stores query stateFilter TOP_K_RESULTS w) as Hs.
  unfold ragQuery, policyChunk_findMany_in, call_generateChatCompletion.
  unfold try_catch at 1, bind at 1.
  destruct (hybridSearch query stateFilter TOP_K_RESULTS w) as [[results|e] w1];
    simpl in Hs.
  - destruct results as [|r rs]; [exact Hs|]. unfold store_call. run_m.
    destruct (store_fault _ _); [exact Hs|]. simpl.
    destruct (generateChatCompletion _ _ _); exact Hs.
  - exact Hs.
Qed.

(** X6. [hybridSearch] throws one error only, "Search failed", whatever the
    cause. It throws exactly when the embedding call or the index query
    throws; when the embedding call throws the index is not queried. *)
Theorem hybridSearch_failure query stateFilter topK w e w' :
  hybridSearch query stateFilter topK w = (Throw e, w') ->
  e = Error "Search failed" /\
  ((exists cause,
      generateEmbedding (trace w) query = Throw cause /\
      new_events w w' = [EvEmbed query; EvConsole LError "Error in hybrid search:"]) \/
   (exists emb cause,
      generateEmbedding (trace w) query = Ok emb /\
      pinecone_query (trace w ++ [EvEmbed query])
        (search_request emb stateFilter topK) (index w) = Throw cause /\
      new_events w w'
      = [EvEmbed query; EvIndexQuery (search_request emb stateFilter topK);
         EvConsole LError "Error querying vectors from Pinecone:";
         EvConsole LError "Error in hybrid search:"])).
Proof.
  unfold hybridSearch, queryVectors, pineconeIndex_query, call_generateEmbedding,
    search_request, new_events.
  run_m. intros H.
  destruct (generateEmbedding (trace w) query) as [emb|cause] eqn:Hemb; simpl in H.
  - replace (topK + (topK + 0)) with (topK * 2) by lia.
    destruct (pinecone_query _ _ _) as [resp|cause] eqn:Hq; simpl in H;
      [discriminate|].
    injection H as <- <-. split; [reflexivity|]. right. exists emb, cause.
    split; [reflexivity|]. split; [exact Hq|]. simpl.
    rewrite <- !app_assoc. simpl. now rewrite drop_app_length.
  - injection H as <- <-. split; [reflexivity|]. left. exists cause.
    split; [reflexivity|]. simpl. rewrite <- !app_assoc. simpl.
    now rewrite drop_app_length.
Qed.

Lemma StronglySorted_app_le {A} (R : A -> A -> Prop) l1 l2 :
  StronglySorted R (l1 ++ l2) ->
  forall x y, x ∈ l1 -> y ∈ l2 -> R x y.
Proof.
  induction l1 as [|a l1 IH]; simpl; intros Hs x y Hx Hy.
  - inversion Hx.
  - apply StronglySorted_inv in Hs as [Hs Hall].
    apply elem_of_cons in Hx as [->|Hx]; [|now apply IH].
    rewrite Forall_forall in Hall. apply Hall. apply elem_of_app. now right.
Qed.

(** X7. The results of [hybridSearch] are the best of the candidates that
    clear the threshold: together with the candidates left out they are a
    permutation of all qualifying candidates, no candidate left out has a
    higher similarity than a result, and the number of results is [topK]
    or, when fewer qualify, the number that qualify. *)
Theorem hybridSearch_top_k query stateFilter topK w results w' :
  hybridSearch query stateFilter topK w = (Ok results, w') ->
  exists emb resp left_out,
    pinecone_query (trace w ++ [EvEmbed query])
      (search_request emb stateFilter topK) (index w) = Ok resp /\
    results ++ left_out ≡ₚ qualifying resp /\
    (forall r x, r ∈ results -> x ∈ left_out ->
                 (similarity x <= similarity r)%Q) /\
    length results = min topK (length (qualifying resp)).
Proof.
  intros H. apply hybridSearch_inv in H as (emb & resp & _ & Hq & -> & _).
  exists emb, resp.
  exists (drop topK (Array_sort by_similarity_desc (qualifying resp))).
  split; [exact Hq|]. unfold rank. fold (qualifying resp).
  split; [|split].
  - rewrite take_drop. symmetry. apply Array_sort_perm.
  - intros r x Hr Hx.
    apply (StronglySorted_app_le desc
             (take topK (Array_sort by_similarity_desc (qualifying resp)))
             (drop topK (Array_sort by_similarity_desc (qualifying resp))));
      [|exact Hr|exact Hx].
    rewrite take_drop. apply Array_sort_desc.
  - rewrite length_take, Array_sort_length. reflexivity.
Qed.

End RetrievalProperties.

(** ** Answers: failures, citations, prompt and confidence *)


Section AnswerProperties.
Context `{I : VectorIndex} `{E : Env}.

Lemma hybridSearch_trace query stateFilter topK w :
  exists events : list event,
    trace (snd (hybridSearch query stateFilter topK w)) = (trace w ++ events)%list /\
    Forall (fun e => is_chat e = false) events.
Proof.
  unfold hybridSearch, queryVectors, pineconeIndex_query, call_generateEmbedding.
  run_m.
  destruct (generateEmbedding (trace w) query); simpl;
    [destruct (pinecone_query _ _ _); simpl|];
    rewrite <- ?app_assoc; eexists; (split; [reflexivity|]);
    repeat constructor.
Qed.

Lemma ragQuery_returns query stateFilter history w results w1 text :
  hybridSearch query stateFilter TOP_K_RESULTS w = (Ok results, w1) ->
  results <> [] ->
  store_fault (trace w1) (PolicyChunkFindMany (map chunkId results)) = None ->
  generateChatCompletion (trace w1)
    (rag_messages query history
       (filter (fun c => chunk_id c ∈ map chunkId results) (chunks w1)) results)
    rag_options = Ok text ->
  exists resp w',
    ragQuery query stateFilter history w = (Ok resp, w') /\ answer resp = text.
Proof.
  intros Hs Hne Hread Hchat. rewrite (ragQuery_after_read _ _ _ _ _ _ Hs Hne Hread).
  unfold call_generateChatCompletion. run_m. rewrite Hchat.
  eexists _, _. split; reflexivity.
Qed.

(** X8. [ragQuery] throws one error only, "Failed to generate answer". It
    throws when the search throws, or when the store rejects the read of
    the full chunks of a non-empty result list, and in both cases the chat
    model is not called; or when the chat model throws. *)
Theorem ragQuery_failure query stateFilter history w e w' :
  ragQuery query stateFilter history w = (Throw e, w') ->
  e = Error "Failed to generate answer" /\
  ((exists cause w1,
      hybridSearch query stateFilter TOP_K_RESULTS w = (Throw cause, w1) /\
      Forall (fun ev => is_chat ev = false) (new_events w w')) \/
   (exists results w1 cause,
      hybridSearch query stateFilter TOP_K_RESULTS w = (Ok results, w1) /\
      results <> [] /\
      store_fault (trace w1) (PolicyChunkFindMany (map chunkId results))
      = Some cause /\
      Forall (fun ev => is_chat ev = false) (new_events w w')) \/
   (exists results w1 cause,
      hybridSearch query stateFilter TOP_K_RESULTS w = (Ok results, w1) /\
      results <> [] /\
      store_fault (trace w1) (PolicyChunkFindMany (map chunkId results)) = None /\
      generateChatCompletion (trace w1)
        (rag_messages query history
           (filter (fun c => chunk_id c ∈ map chunkId results) (chunks w1)) results)
        rag_options = Throw cause)).
Proof.
  destruct (hybridSearch_trace query stateFilter TOP_K_RESULTS w) as (evs & Ht & Hev).
  destruct (hybridSearch query stateFilter TOP_K_RESULTS w)
    as [[results|cause] w1] eqn:Hs; simpl in Ht.
  - destruct results as [|r rs].
    { unfold ragQuery, try_catch, bind. rewrite Hs. discriminate. }
    assert (Hne : r :: rs <> []) by discriminate.
    destruct (store_fault (trace w1) (PolicyChunkFindMany (map chunkId (r :: rs))))
      as [cause|] eqn:Hread.
    + rewrite (ragQuery_read_rejected _ _ _ _ _ _ _ Hs Hne Hread).
      intros H. injection H as <- <-. split; [reflexivity|]. right. left.
      exists (r :: rs), w1, cause. split; [reflexivity|]. split; [exact Hne|].
      split; [exact Hread|].
      unfold new_events. simpl. rewrite Ht, <- app_assoc, drop_app_length.
      apply Forall_app. split; [exact Hev|]. repeat constructor.
    + rewrite (ragQuery_after_read _ _ _ _ _ _ Hs Hne Hread).
      unfold call_generateChatCompletion. run_m.
      destruct (generateChatCompletion _ _ _) as [text|cause] eqn:Hchat;
        [discriminate|].
      intros H. injection H as <- <-. split; [reflexivity|]. right. right.
      exists (r :: rs), w1, cause. split; [reflexivity|]. split; [exact Hne|].
      split; [exact Hread|]. exact Hchat.
  - unfold ragQuery, try_catch, bind. rewrite Hs. run_m.
    intros H. injection H as <- <-. split; [reflexivity|]. left.
    exists cause, w1. split; [reflexivity|].
    unfold new_events. simpl. rewrite Ht, <- app_assoc, drop_app_length.
    apply Forall_app. split; [exact Hev|]. repeat constructor.
Qed.

Lemma hydrated_content_cases fullChunks r :
  hydrated_content fullChunks r = content r \/
  exists row, row ∈ fullChunks /\ chunk_id row = chunkId r /\
              chunk_content row <> "" /\
              hydrated_content fullChunks r = chunk_content row.
Proof.
  unfold hydrated_content.
  destruct (find _ fullChunks) as [row|] eqn:Hfind; [|now left].
  apply find_some in Hfind as [Hin Hid].
  apply bool_decide_eq_true in Hid.
  case_bool_decide as Hc; [now left|right].
  exists row. split; [now apply list_elem_of_In|]. now repeat split.
Qed.

Lemma to_citation_matches (table fullChunks : list PolicyChunk) results :
  (forall row, row ∈ fullChunks -> row ∈ table) ->
  Forall2 (fun r c =>
             cit_pageNumber c = pageNumber r /\
             cit_stateName c = stateName r /\
             cit_policyTitle c = policyTitle r /\
             (cit_content c = content r \/
              exists row, row ∈ table /\ chunk_id row = chunkId r /\
                          chunk_content row <> "" /\
                          cit_content c = chunk_content row))
    results (map (to_citation fullChunks) results).
Proof.
  intros Hsub. induction results as [|r rs IH]; simpl; constructor; [|exact IH].
  repeat split.
  destruct (hydrated_content_cases fullChunks r)
    as [Hc|(row & Hin & Hid & Hne & Hc)]; [now left|right].
  exists row. split; [now apply Hsub|]. now repeat split.
Qed.

(** X9. Every response [ragQuery] returns cites the search results one
    for one and in order: a citation carries its result's page number,
    state name and policy title, and its content is either the result's
    own preview or the non-empty content of a stored chunk with the
    result's id. *)
Theorem ragQuery_citations query stateFilter history w results w1 resp w' :
  hybridSearch query stateFilter TOP_K_RESULTS w = (Ok results, w1) ->
  ragQuery query stateFilter history w = (Ok resp, w') ->
  Forall2 (fun r c =>
             cit_pageNumber c = pageNumber r /\
             cit_stateName c = stateName r /\
             cit_policyTitle c = policyTitle r /\
             (cit_content c = content r \/
              exists row, row ∈ chunks w /\ chunk_id row = chunkId r /\
                          chunk_content row <> "" /\
                          cit_content c = chunk_content row))
    results (citations resp).
Proof.
  intros Hs.
  destruct (hybridSearch_stores query stateFilter TOP_K_RESULTS w)
    as (_ & Hchunks & _).
  rewrite Hs in Hchunks. simpl in Hchunks.
  destruct results as [|r0 rs0].
  - unfold ragQuery, try_catch, bind. rewrite Hs. simpl.
    intros H. injection H as <- <-. constructor.
  - rewrite (ragQuery_after_search _ _ _ _ _ _ Hs) by discriminate.
    unfold policyChunk_findMany_in, store_call, call_generateChatCompletion.
    run_m. destruct (store_fault _ _); [discriminate|]. simpl.
    destruct (generateChatCompletion _ _ _); [|discriminate].
    intros H. injection H as <- <-.
    apply (to_citation_matches (chunks w) _ (r0 :: rs0)).
    intros row Hin. apply list_elem_of_filter in Hin as [_ Hin].
    now rewrite <- Hchunks.
Qed.



End AnswerProperties.


(** ** Fact extraction: the brace span and the rows written *)

Lemma from_first_open_spec s t :
  from_first_open s = Some t <->
  exists pre rest, s = pre ++ String "{" rest /\ t = String "{" rest /\
                   mentions "{" pre = false.
Proof.
  split.
  - revert t. induction s as [|c s IH]; simpl; intros t H; [discriminate|].
    destruct (Ascii.eqb c "{") eqn:Hc.
    + apply Ascii.eqb_eq in Hc as ->. injection H as <-.
      exists "", s. now repeat split.
    + destruct (IH t H) as (pre & rest & -> & -> & Hpre).
      exists (String c pre), rest. simpl. rewrite Hc, Hpre. now repeat split.
  - intros (pre & rest & -> & -> & Hpre).
    induction pre as [|c pre IH]; simpl in *.
    + reflexivity.
    + apply orb_false_iff in Hpre as [-> Hpre]. now apply IH.
Qed.

Lemma through_last_close_none s :
  through_last_close s = None <-> mentions "}" s = false.
Proof.
  induction s as [|c s IH]; simpl; [tauto|].
  destruct (through_last_close s) as [span|].
  - split; [discriminate|]. intros H. apply orb_false_iff in H as [_ H].
    apply IH in H. discriminate.
  - destruct (Ascii.eqb c "}"); simpl; [split; discriminate|].
    split; intros _; [now apply IH|reflexivity].
Qed.

Lemma through_last_close_spec t span :
  through_last_close t = Some span <->
  exists body post, t = body ++ String "}" post /\ span = body ++ "}" /\
                    mentions "}" post = false.
Proof.
  split.
  - revert span. induction t as [|c t IH]; simpl; intros span H; [discriminate|].
    destruct (through_last_close t) as [span'|] eqn:Ht.
    + injection H as <-. destruct (IH span' eq_refl) as (body & post & -> & -> & Hp).
      exists (String c body), post. now repeat split.
    + destruct (Ascii.eqb c "}") eqn:Hc; [|discriminate].
      apply Ascii.eqb_eq in Hc as ->. injection H as <-.
      exists "", t. repeat split. now apply through_last_close_none.
  - intros (body & post & -> & -> & Hp).
    induction body as [|c body IH]; simpl.
    + apply through_last_close_none in Hp. now rewrite Hp.
    + now rewrite IH.
Qed.

(** X11. The span [extractPolicyFacts] parses runs from the first opening
    brace of the model output to the last closing brace after it: the match
    succeeds exactly when the output splits into a prefix without an opening
    brace, the span, and a suffix without a closing brace. *)
Theorem match_braces_spec raw span :
  match_braces raw = Some span <->
  exists pre mid post,
    raw = pre ++ "{" ++ mid ++ "}" ++ post /\
    span = "{" ++ mid ++ "}" /\
    mentions "{" pre = false /\
    mentions "}" post = false.
Proof.
  unfold match_braces. split.
  - destruct (from_first_open raw) as [t|] eqn:Hopen; [|discriminate].
    intros Hclose.
    apply from_first_open_spec in Hopen as (pre & rest & -> & -> & Hpre).
    apply through_last_close_spec in Hclose as (body & post & Ht & -> & Hpost).
    destruct body as [|c mid]; simpl in Ht; [discriminate|].
    injection Ht as <- ->.
    exists pre, mid, post. now repeat split.
  - intros (pre & mid & post & -> & -> & Hpre & Hpost).
    assert (Hopen : from_first_open (pre ++ "{" ++ mid ++ "}" ++ post)
                    = Some (String "{" (mid ++ "}" ++ post))).
    { apply from_first_open_spec. exists pre, (mid ++ "}" ++ post). now repeat split. }
    rewrite Hopen. apply through_last_close_spec.
    exists (String "{" mid), post. now repeat split.
Qed.

Section ExtractionProperties.
Context `{E : Env}.

(** X12. For a policy id the store does not hold, [extractPolicyFacts] throws
    "Failed to extract policy facts" without calling the chat model and
    without writing a row: only the error line is logged. *)
Theorem extractPolicyFacts_missing_policy policyId w :
  policies w !! policyId = None ->
  exists w',
    extractPolicyFacts policyId w
    = (Throw (Error "Failed to extract policy facts"), w') /\
    new_events w w' = [EvConsole LError "Error extracting policy facts:"] /\
    same_stores w w'.
Proof.
  intros Hp. unfold extractPolicyFacts, policy_findUnique. run_m. rewrite Hp.
  simpl. eexists. split; [reflexivity|]. split; [|now repeat split].
  unfold new_events. simpl. now rewrite drop_app_length.
Qed.

Lemma store_facts_stops policy good bad rest :
  Forall (fun fact => exists row, fact_data policy fact = Ok row /\
                                  policyFact_accepts row = true) good ->
  (match fact_data policy bad with
   | Ok row => policyFact_accepts row = false
   | Throw _ => True
   end) ->
  forall w, exists e w' rows,
    store_facts policy (good ++ bad :: rest) w = (Throw e, w') /\
    facts w' = (facts w ++ rows)%list /\
    Forall2 (fun fact row => fact_data policy fact = Ok row) good rows.
Proof.
  intros Hgood Hbad. induction Hgood as [|fact good (row & Hrow & Hacc) _ IH];
    intros w; simpl.
  - unfold store_fact, policyFact_create. run_m.
    destruct (fact_data policy bad) as [row|e]; simpl.
    + rewrite Hbad. simpl. eexists _, w, []. rewrite app_nil_r.
      repeat split; constructor.
    + eexists e, w, []. rewrite app_nil_r. repeat split; constructor.
  - unfold store_fact at 1, policyFact_create at 1. run_m. rewrite Hrow. simpl.
    rewrite Hacc. simpl.
    edestruct IH as (e & w' & rows & -> & Hf & Hall).
    exists e, w', (row :: rows). simpl in *. split; [reflexivity|].
    split; [now rewrite Hf, <- app_assoc|]. now constructor.
Qed.

(** X13. Facts are written one by one with no transaction: when the rows of
    the first facts are accepted and the next fact is refused by the store
    (or is [null]), [extractPolicyFacts] throws "Failed to extract policy
    facts", the rows already written stay, and the facts after the refused
    one are not written. *)
Theorem extractPolicyFacts_partial_write policyId policy w raw span result
    good bad rest :
  policies w !! policyId = Some policy ->
  generateChatCompletion (trace w)
    (extraction_messages policy (filter (fun c => chunk_policyId c = policyId) (chunks w)))
    extraction_options = Ok raw ->
  match_braces raw = Some span ->
  JSON_parse span = Some result ->
  get_prop result "facts" = Ok (Some (JArr (good ++ bad :: rest))) ->
  Forall (fun fact => exists row, fact_data policy fact = Ok row /\
                                  policyFact_accepts row = true) good ->
  (match fact_data policy bad with
   | Ok row => policyFact_accepts row = false
   | Throw _ => True
   end) ->
  exists w' rows,
    extractPolicyFacts policyId w
    = (Throw (Error "Failed to extract policy facts"), w') /\
    facts w' = (facts w ++ rows)%list /\
    Forall2 (fun fact row => fact_data policy fact = Ok row) good rows.
Proof.
  intros Hp Hchat Hspan Hparse Hfacts Hgood Hbad.
  destruct (extractPolicyFacts_after_chat _ _ _ _ Hp Hchat) as (w1 & _ & Hf & ->).
  unfold parse_extraction. unfold try_catch, bind, lift_outcome, ret.
  rewrite Hspan, Hparse, Hfacts.
  destruct (store_facts_stops policy good bad rest Hgood Hbad w1)
    as (e & w' & rows & -> & Hf' & Hall).
  run_m. eexists _, rows. split; [reflexivity|]. simpl.
  split; [now rewrite Hf', Hf|exact Hall].
Qed.


Lemma fact_data_fields policy fact row :
  fact_data policy fact = Ok row ->
  fact_policyId row = pol_id policy /\
  fact_stateId row = pol_stateId policy /\
  get_prop fact "category" = Ok (fact_category row) /\
  get_prop fact "field" = Ok (fact_field row) /\
  get_prop fact "value" = Ok (fact_value row) /\
  get_prop fact "page" = Ok (fact_pageNumber row) /\
  (forall v, get_prop fact "confidence" = Ok (Some v) -> truthy v = true ->
             fact_confidence row = v) /\
  (get_prop fact "confidence" = Ok None -> fact_confidence row = JNum 0.5).
Proof.
  unfold fact_data. intros Hrow.
  destruct (get_prop fact "category"), (get_prop fact "field"),
    (get_prop fact "value"), (get_prop fact "confidence") as [conf|],
    (get_prop fact "page"); try discriminate.
  injection Hrow as <-. simpl. repeat split.
  - intros v Hv Ht. injection Hv as ->. simpl. now rewrite Ht.
  - intros Hv. now injection Hv as ->.
Qed.

(** X15. Each row [extractPolicyFacts] writes carries the policy's id and state
    id, and the fact's category, field, value and page as parsed (the page
    as [pageNumber]); a stated confidence that is truthy is kept as it is,
    and an omitted confidence becomes 0.5. *)
Theorem extractPolicyFacts_rows policyId policy w raw span result items :
  policies w !! policyId = Some policy ->
  generateChatCompletion (trace w)
    (extraction_messages policy (filter (fun c => chunk_policyId c = policyId) (chunks w)))
    extraction_options = Ok raw ->
  match_braces raw = Some span ->
  JSON_parse span = Some result ->
  get_prop result "facts" = Ok (Some (JArr items)) ->
  Forall (fun fact => exists row, fact_data policy fact = Ok row /\
                                  policyFact_accepts row = true) items ->
  exists w' rows,
    extractPolicyFacts policyId w = (Ok tt, w') /\
    facts w' = (facts w ++ rows)%list /\
    Forall2 (fun fact row =>
               fact_policyId row = pol_id policy /\
               fact_stateId row = pol_stateId policy /\
               get_prop fact "category" = Ok (fact_category row) /\
               get_prop fact "field" = Ok (fact_field row) /\
               get_prop fact "value" = Ok (fact_value row) /\
               get_prop fact "page" = Ok (fact_pageNumber row) /\
               (forall v, get_prop fact "confidence" = Ok (Some v) ->
                          truthy v = true -> fact_confidence row = v) /\
               (get_prop fact "confidence" = Ok None ->
                fact_confidence row = JNum 0.5))
      items rows.
Proof.
  intros Hp Hchat Hspan Hparse Hfacts Hrows.
  destruct (extractPolicyFacts_after_chat _ _ _ _ Hp Hchat) as (w1 & _ & Hf & ->).
  unfold parse_extraction. unfold try_catch, bind, lift_outcome, ret.
  rewrite Hspan, Hparse, Hfacts.
  destruct (store_facts_rows policy items Hrows w1) as (w' & rows & -> & Hf' & _ & Hall).
  exists w', rows. split; [reflexivity|]. split; [now rewrite Hf', Hf|].
  eapply Forall2_impl; [exact Hall|]. intros fact row Hrow.
  now apply (fact_data_fields policy).
Qed.

End ExtractionProperties.

(** ** The worker: what one iteration touches *)

(** A relation between the world before and the world after that holds
    across every step of an iteration, given that it holds across the
    primitive steps. *)
Section Frame.
Context `{E : Env}.
Variable R : World -> World -> Prop.
Variable allowed : event -> Prop.
Hypothesis R_refl : forall w, R w w.
Hypothesis R_trans : forall w1 w2 w3, R w1 w2 -> R w2 w3 -> R w1 w3.
Hypothesis R_emit : forall e w, allowed e -> R w (snd (emit e w)).
Hypothesis R_index : forall i w, R w (snd (set_index i w)).
Hypothesis R_policies : forall p w, R w (snd (set_policies p w)).
Hypothesis R_chunks : forall c w, R w (snd (set_chunks c w)).
Hypothesis R_facts : forall f w, R w (snd (set_facts f w)).
Hypothesis allowed_console : forall lvl text, allowed (EvConsole lvl text).
Hypothesis allowed_chat : forall messages opts, allowed (EvChat messages opts).
Hypothesis allowed_processor : forall buffer policy, allowed (EvProcessPDF buffer policy).

Lemma preserves_ret {A} (a : A) : preserves R (ret a).
Proof using R_refl. intros w. apply R_refl. Qed.

Lemma preserves_throw {A} e : preserves R (@throw A e).
Proof using R_refl. intros w. apply R_refl. Qed.

Lemma preserves_get {A} (f : World -> A) : preserves R (get f).
Proof using R_refl. intros w. apply R_refl. Qed.

Lemma preserves_lift_outcome {A} (o : Outcome A) : preserves R (lift_outcome o).
Proof using R_refl. intros w. apply R_refl. Qed.

Lemma preserves_bind {A B} (m : M A) (k : A -> M B) :
  preserves R m -> (forall a, preserves R (k a)) -> preserves R (bind m k).
Proof using R_trans.
  intros Hm Hk w. unfold bind. specialize (Hm w).
  destruct (m w) as [[a|e] w1]; simpl in *; [|exact Hm].
  eapply R_trans; [exact Hm|apply Hk].
Qed.

Lemma preserves_try_catch {A} (m : M A) (h : exn -> M A) :
  preserves R m -> (forall e, preserves R (h e)) -> preserves R (try_catch m h).
Proof using R_trans.
  intros Hm Hh w. unfold try_catch. specialize (Hm w).
  destruct (m w) as [[a|e] w1]; simpl in *; [exact Hm|].
  eapply R_trans; [exact Hm|apply Hh].
Qed.

Lemma preserves_try_finally {A} (m : M A) (c : M unit) :
  preserves R m -> preserves R c -> preserves R (try_finally m c).
Proof using R_trans.
  intros Hm Hc w. unfold try_finally. specialize (Hm w).
  destruct (m w) as [r w1]. specialize (Hc w1).
  destruct (c w1) as [[[]|e] w2]; simpl in *; eapply R_trans; eassumption.
Qed.

Lemma preserves_emit e : allowed e -> preserves R (emit e).
Proof using R_emit. intros He w. now apply R_emit. Qed.

Lemma preserves_console_error text : preserves R (console_error text).
Proof using R_emit allowed_console. apply preserves_emit, allowed_console. Qed.

Lemma preserves_console_warn text : preserves R (console_warn text).
Proof using R_emit allowed_console. apply preserves_emit, allowed_console. Qed.

Lemma preserves_call_processAndStorePDF buffer policyId stateId stateName title :
  preserves R (call_processAndStorePDF buffer policyId stateId stateName title).
Proof using R_trans R_emit R_index allowed_processor.
  intros w. unfold call_processAndStorePDF.
  destruct (processAndStorePDF _ _ _ _ _ _ _) as [r i]. simpl.
  eapply R_trans; [apply (R_emit (EvProcessPDF buffer policyId)), allowed_processor|].
  apply (R_index i).
Qed.

Lemma preserves_call_generateChatCompletion messages opts :
  preserves R (call_generateChatCompletion messages opts).
Proof using R_emit allowed_chat.
  intros w. unfold call_generateChatCompletion. simpl.
  apply (R_emit (EvChat messages opts)), allowed_chat.
Qed.

Lemma preserves_store_call call : preserves R (store_call call).
Proof using R_refl.
  intros w. unfold store_call. destruct (store_fault _ _); apply R_refl.
Qed.

Lemma preserves_policy_update id data : preserves R (policy_update id data).
Proof using R_refl R_policies.
  intros w. unfold policy_update, store_call, bind.
  destruct (policies w !! id); [|apply R_refl].
  destruct (store_fault _ _); [apply R_refl|apply R_policies].
Qed.

Lemma preserves_policyFact_create data : preserves R (policyFact_create data).
Proof using R_refl R_facts.
  intros w. unfold policyFact_create.
  destruct (policyFact_accepts data); [apply R_facts|apply R_refl].
Qed.

Lemma preserves_store_facts policy items : preserves R (store_facts policy items).
Proof using R_refl R_trans R_facts.
  induction items as [|fact items IH]; simpl; [apply preserves_ret|].
  apply preserves_bind; [|intros _; exact IH].
  unfold store_fact. apply preserves_bind; [apply preserves_lift_outcome|].
  intros data. apply preserves_policyFact_create.
Qed.

Lemma preserves_parse_extraction raw : preserves R (parse_extraction raw).
Proof using R_refl R_trans R_emit allowed_console.
  unfold parse_extraction. apply preserves_try_catch.
  - destruct (match_braces raw); [destruct (JSON_parse _)|];
      first [apply preserves_ret|apply preserves_throw].
  - intros e. apply preserves_bind; [apply preserves_console_warn|].
    intros _. apply preserves_ret.
Qed.

Lemma preserves_extractPolicyFacts policyId :
  preserves R (extractPolicyFacts policyId).
Proof using R_refl R_trans R_emit R_facts allowed_console allowed_chat.
  unfold extractPolicyFacts, policy_findUnique, policy_chunks.
  apply preserves_try_catch.
  - apply preserves_bind; [apply preserves_get|]. intros [policy|];
      [|apply preserves_throw].
    apply preserves_bind; [apply preserves_get|]. intros rows.
    apply preserves_bind; [apply preserves_call_generateChatCompletion|]. intros raw.
    apply preserves_bind; [apply preserves_parse_extraction|]. intros result.
    apply preserves_bind; [apply preserves_lift_outcome|].
    intros [[]|]; first [apply preserves_store_facts|apply preserves_ret].
  - intros e. apply preserves_bind; [apply preserves_console_error|].
    intros _. apply preserves_throw.
Qed.

(** Steps 5 and 6 of an iteration, and its [catch] block. *)
Lemma preserves_after_chunks job :
  preserves R
    (try_catch
       (extractPolicyFacts (job_policyId job) ;;
        let* now := get clock in
        policy_update (job_policyId job) (mark_completed now))
       (on_failure job)).
Proof using R_refl R_trans R_emit R_policies R_facts allowed_console allowed_chat.
  apply preserves_try_catch.
  - apply preserves_bind; [apply preserves_extractPolicyFacts|]. intros _.
    apply preserves_bind; [apply preserves_get|]. intros now.
    apply preserves_policy_update.
  - intros e. unfold on_failure.
    apply preserves_bind; [apply preserves_console_error|]. intros _.
    apply preserves_policy_update.
Qed.


Lemma preserves_policyChunk_createMany policyId data :
  preserves R (policyChunk_createMany policyId data).
Proof using R_refl R_trans R_chunks.
  unfold policyChunk_createMany.
  apply preserves_bind; [apply preserves_store_call|]. intros _.
  apply preserves_bind; [apply preserves_get|]. intros table.
  intros w. apply R_chunks.
Qed.

Lemma preserves_process_job job :
  preserves R (resolveBuffer job) ->
  preserves R (cleanup job) ->
  preserves R (process_job job).
Proof using R_refl R_trans R_emit R_index R_policies R_chunks R_facts allowed_console
  allowed_chat allowed_processor.
  intros Hresolve Hcleanup.
  apply preserves_try_finally; [|exact Hcleanup].
  unfold guarded_ingest, ingest, policy_findUnique. apply preserves_try_catch.
  - apply preserves_bind; [apply preserves_get|]. intros [policy|];
      [|apply preserves_throw].
    unfold ingest_policy.
    apply preserves_bind; [exact Hresolve|]. intros buffer.
    apply preserves_bind; [apply preserves_call_processAndStorePDF|].
    intros processed.
    apply preserves_bind; [apply preserves_policyChunk_createMany|]. intros _.
    apply preserves_bind; [apply preserves_extractPolicyFacts|]. intros _.
    apply preserves_bind; [apply preserves_get|]. intros now.
    apply preserves_policy_update.
  - intros e. unfold on_failure.
    apply preserves_bind; [apply preserves_console_error|]. intros _.
    apply preserves_policy_update.
Qed.

Lemma preserves_fs_readFile path :
  allowed (EvReadFile path) -> preserves R (fs_readFile path).
Proof using R_refl R_trans R_emit.
  intros Hread. unfold fs_readFile.
  apply preserves_bind; [apply preserves_get|]. intros calls.
  apply preserves_bind; [now apply preserves_emit|]. intros _.
  apply preserves_bind; [apply preserves_get|]. intros fs.
  destruct (fs_fault calls path); [apply preserves_throw|].
  destruct (fs !! path); [apply preserves_ret|apply preserves_throw].
Qed.

Lemma preserves_resolveBuffer job :
  (forall path, job_buffer job = None -> allowed (EvReadFile path)) ->
  preserves R (resolveBuffer job).
Proof using R_refl R_trans R_emit.
  intros Hread. unfold resolveBuffer.
  destruct (job_buffer job); [apply preserves_ret|].
  destruct (job_filePath job); [|apply preserves_throw].
  case_bool_decide; [apply preserves_throw|].
  apply preserves_fs_readFile. now apply Hread.
Qed.

Lemma preserves_cleanup job :
  (forall path, job_deleteFileAfter job = Some true ->
                job_filePath job = Some path ->
                allowed (EvUnlink path) /\
                forall w, R w (snd (set_files (delete path (files w)) w))) ->
  preserves R (cleanup job).
Proof using R_refl R_trans R_emit allowed_console.
  intros Hunlink. unfold cleanup.
  destruct (job_deleteFileAfter job) as [[]|]; try apply preserves_ret.
  destruct (job_filePath job) as [path|]; [|apply preserves_ret].
  destruct (Hunlink path eq_refl eq_refl) as [Hev Hfiles].
  case_bool_decide; [apply preserves_ret|].
  apply preserves_try_catch; [|intros e; apply preserves_console_warn].
  unfold fs_unlink.
  apply preserves_bind; [apply preserves_get|]. intros calls.
  apply preserves_bind; [now apply preserves_emit|]. intros _.
  intros w. unfold bind, get. simpl.
  destruct (fs_fault calls path); [apply R_refl|].
  destruct (files w !! path); [apply Hfiles|apply R_refl].
Qed.

End Frame.

(** ** The worker: files and chunk rows *)


Section WorkerProperties.
Context `{E : Env}.

(** X16. The steps of an iteration remove no file but the job's own, and
    that one only when the job says so: every other path keeps its content,
    and so does the job's path when the delete-after flag is not set. (The
    PDF processor writes to the vector index only.) *)
Theorem process_job_files job w path :
  (job_deleteFileAfter job = Some true -> job_filePath job <> Some path) ->
  files (snd (process_job job w)) !! path = files w !! path.
Proof.
  intros Hpath.
  apply (preserves_process_job
           (fun w w' => files w' !! path = files w !! path) (fun _ => True));
    try (intros; reflexivity); try (intros; exact I).
  - intros w1 w2 w3 H1 H2. now rewrite H2.
  - apply (preserves_resolveBuffer _ (fun _ => True));
      try (intros; reflexivity); try (intros; exact I).
    intros w1 w2 w3 H1 H2. now rewrite H2.
  - apply (preserves_cleanup _ (fun _ => True));
      try (intros; reflexivity); try (intros; exact I).
    + intros w1 w2 w3 H1 H2. now rewrite H2.
    + intros p Hflag Hp. split; [exact I|]. intros w0. simpl.
      apply lookup_delete_ne. intros ->. now apply Hpath.
Qed.

Lemma reads_no_file_refl w : reads_no_file w w.
Proof. exists []. split; [now rewrite app_nil_r|constructor]. Qed.

Lemma reads_no_file_trans w1 w2 w3 :
  reads_no_file w1 w2 -> reads_no_file w2 w3 -> reads_no_file w1 w3.
Proof.
  intros (e1 & H1 & Hf1) (e2 & H2 & Hf2). exists (e1 ++ e2)%list.
  split; [now rewrite H2, H1, <- app_assoc|]. now apply Forall_app.
Qed.

Lemma reads_no_file_emit e w : not_a_read e -> reads_no_file w (snd (emit e w)).
Proof. intros He. exists [e]. split; [reflexivity|]. now constructor. Qed.

Lemma reads_no_file_same w w' : trace w' = trace w -> reads_no_file w w'.
Proof. intros H. exists []. split; [now rewrite app_nil_r|constructor]. Qed.

(** X17. A job that carries its bytes in memory never reads the file system,
    also when it names a file path as well: no event of the iteration is a
    file read. *)
Theorem process_job_buffer_no_read job buffer w :
  job_buffer job = Some buffer ->
  exists events : list event,
    trace (snd (process_job job w)) = (trace w ++ events)%list /\
    Forall not_a_read events.
Proof.
  intros Hb.
  apply (preserves_process_job reads_no_file not_a_read
           reads_no_file_refl reads_no_file_trans reads_no_file_emit);
    try (intros; apply reads_no_file_same; reflexivity);
    try (intros; exact I).
  - apply (preserves_resolveBuffer reads_no_file not_a_read
             reads_no_file_refl reads_no_file_trans reads_no_file_emit).
    intros path Hnone. congruence.
  - apply (preserves_cleanup reads_no_file not_a_read
             reads_no_file_refl reads_no_file_trans reads_no_file_emit);
      [intros; exact I|].
    intros p _ _. split; [exact I|]. intros w0.
    apply reads_no_file_same. reflexivity.
Qed.

Lemma try_catch_bind_ok {A B} (m : M A) (k : A -> M B) h w a w1 :
  m w = (Ok a, w1) -> try_catch (bind m k) h w = try_catch (k a) h w1.
Proof. intros H. unfold try_catch, bind. now rewrite H. Qed.

Lemma try_catch_bind_throw {A B} (m : M A) (k : A -> M B) h w e w1 :
  m w = (Throw e, w1) -> try_catch (bind m k) h w = h e w1.
Proof. intros H. unfold try_catch, bind. now rewrite H. Qed.

(** How far an iteration gets, for a policy of the store. *)
Lemma guarded_ingest_steps job w policy :
  policies w !! job_policyId job = Some policy ->
  guarded_ingest job w =
  match resolveBuffer job w with
  | (Throw e, w0) => on_failure job e w0
  | (Ok buffer, w0) =>
      match call_processAndStorePDF buffer (job_policyId job)
              (pol_stateId policy) (pol_stateName policy) (pol_title policy) w0 with
      | (Throw e, w1) => on_failure job e w1
      | (Ok processed, w1) =>
          match policyChunk_createMany (job_policyId job)
                  (processed_chunks processed) w1 with
          | (Throw e, w2) => on_failure job e w2
          | (Ok _, w2) =>
              try_catch
                (extractPolicyFacts (job_policyId job) ;;
                 let* now := get clock in
                 policy_update (job_policyId job) (mark_completed now))
                (on_failure job) w2
          end
      end
  end.
Proof.
  intros Hp. unfold guarded_ingest, ingest.
  rewrite (try_catch_bind_ok _ _ _ w (Some policy) w)
    by (unfold policy_findUnique, get; now rewrite Hp).
  unfold ingest_policy.
  destruct (resolveBuffer job w) as [[buffer|e] w0] eqn:Hr.
  - rewrite (try_catch_bind_ok _ _ _ _ _ _ Hr).
    destruct (call_processAndStorePDF _ _ _ _ _ w0) as [[processed|e] w1] eqn:Hc.
    + rewrite (try_catch_bind_ok _ _ _ _ _ _ Hc).
      destruct (policyChunk_createMany _ _ w1) as [[[]|e] w2] eqn:Hrows.
      * now rewrite (try_catch_bind_ok _ _ _ _ _ _ Hrows).
      * now rewrite (try_catch_bind_throw _ _ _ _ _ _ Hrows).
    + now rewrite (try_catch_bind_throw _ _ _ _ _ _ Hc).
  - now rewrite (try_catch_bind_throw _ _ _ _ _ _ Hr).
Qed.

Lemma chunks_trans (w1 w2 w3 : World) :
  chunks w2 = chunks w1 -> chunks w3 = chunks w2 -> chunks w3 = chunks w1.
Proof. congruence. Qed.

Lemma on_failure_chunks job e w : chunks (snd (on_failure job e w)) = chunks w.
Proof.
  unfold on_failure, policy_update, store_call. run_m.
  destruct (policies w !! job_policyId job); [|reflexivity].
  now destruct (store_fault _ _).
Qed.

(** X18. Chunk rows are written when, and only when, the PDF processor has
    returned and the store accepts the [createMany]: one row per processed
    chunk, in order, with the job's policy id and the chunk's content, page
    number and index. They stay in the table when a later step of the job
    fails; nothing is written when the processor throws or the store
    rejects the call. *)
Theorem process_job_chunks job w policy buffer w0 :
  policies w !! job_policyId job = Some policy ->
  resolveBuffer job w = (Ok buffer, w0) ->
  chunks (snd (process_job job w)) =
  match fst (processAndStorePDF (trace w0) buffer (job_policyId job)
               (pol_stateId policy) (pol_stateName policy) (pol_title policy)
               (index w0)) with
  | Ok processed =>
      match store_fault (trace w0 ++ [EvProcessPDF buffer (job_policyId job)])
              (PolicyChunkCreateMany (job_policyId job)
                 (processed_chunks processed)) with
      | None =>
          (chunks w ++ chunk_rows (length (chunks w)) (job_policyId job)
                         (processed_chunks processed))%list
      | Some _ => chunks w
      end
  | Throw _ => chunks w
  end.
Proof.
  intros Hp Hr.
  assert (Hc0 : chunks w0 = chunks w).
  { pose proof (preserves_resolveBuffer (fun w w' => chunks w' = chunks w)
                  (fun _ => True) (fun _ => eq_refl) chunks_trans
                  (fun _ _ _ => eq_refl) job (fun _ _ => I) w) as H.
    now rewrite Hr in H. }
  assert (Hcleanup : forall w1, chunks (snd (cleanup job w1)) = chunks w1).
  { apply (preserves_cleanup (fun w w' => chunks w' = chunks w) (fun _ => True));
      try (intros; reflexivity); try (intros; exact I); [apply chunks_trans|].
    intros p _ _. split; [exact I|]. reflexivity. }
  assert (Hend : forall (run : Outcome unit * World) rows,
            chunks (snd run) = rows ->
            chunks (snd (let (r, w') := run in
                         match cleanup job w' with
                         | (Ok _, w'') => (r, w'')
                         | (Throw e, w'') => (Throw e, w'')
                         end)) = rows).
  { intros [r w4] rows Hrows. specialize (Hcleanup w4).
    destruct (cleanup job w4) as [[[]|e] w5]; simpl in *; congruence. }
  unfold process_job, try_finally.
  rewrite (guarded_ingest_steps job w policy Hp), Hr.
  unfold call_processAndStorePDF. simpl.
  destruct (processAndStorePDF _ _ _ _ _ _ _) as [[processed|e] idx]; simpl.
  - unfold policyChunk_createMany, store_call, bind, get, set_chunks. simpl.
    destruct (store_fault _ _) as [e|]; simpl.
    + apply Hend. now rewrite on_failure_chunks.
    + apply Hend.
      match goal with |- context [try_catch ?m ?h ?w3] =>
        pose proof (preserves_after_chunks (fun w w' => chunks w' = chunks w)
                      (fun _ => True) (fun _ => eq_refl) chunks_trans
                      (fun _ _ _ => eq_refl) (fun _ _ => eq_refl)
                      (fun _ _ => eq_refl) (fun _ _ => I) (fun _ _ => I) job w3)
          as Hrest end.
      etransitivity; [exact Hrest|]. simpl. unfold chunk_rows. now rewrite Hc0.
  - apply Hend. now rewrite on_failure_chunks.
Qed.

End WorkerProperties.

(** ** The queue: order, enqueueing and the policy record *)


Section QueueProperties.
Context `{E : Env}.










(** X20. While a worker is active an enqueue only appends the job: nothing is
    processed, no second worker starts, and nothing else changes. *)
Theorem queuePolicyProcessing_busy policyId buffer filePath deleteFileAfter w :
  isProcessing w = true ->
  exists w',
    queuePolicyProcessing policyId buffer filePath deleteFileAfter w = Some w' /\
    jobQueue w'
    = (jobQueue w ++ [ {| job_policyId := policyId; job_buffer := buffer;
                          job_filePath := filePath;
                          job_deleteFileAfter := deleteFileAfter |} ])%list /\
    isProcessing w' = true /\
    trace w' = trace w /\
    policies w' = policies w /\ chunks w' = chunks w /\ facts w' = facts w /\
    index w' = index w /\ files w' = files w.
Proof.
  intros Hf. unfold queuePolicyProcessing, processQueue, processQueue_fuel.
  simpl. rewrite Hf. simpl. eexists. split; [reflexivity|]. now repeat split.
Qed.

(** X21. With no worker active, an enqueue starts one that, run to its
    end, drains the queue before it stops: when the new job and the jobs
    already queued name policies of the store and the store rejects no
    status update, the queue is empty afterwards, the worker flag is
    cleared, and the policy of every one of these jobs is completed or
    failed. *)
Theorem queuePolicyProcessing_idle policyId buffer filePath deleteFileAfter w :
  updates_accepted ->
  isProcessing w = false ->
  Forall (fun job => is_Some (policies w !! job_policyId job)) (jobQueue w) ->
  is_Some (policies w !! policyId) ->
  exists w',
    queuePolicyProcessing policyId buffer filePath deleteFileAfter w = Some w' /\
    jobQueue w' = [] /\
    isProcessing w' = false /\
    settled policyId w' /\
    Forall (fun job => settled (job_policyId job) w') (jobQueue w).
Proof.
  intros Hacc Hf Hall Hnew. unfold queuePolicyProcessing.
  match goal with |- context [processQueue ?w0] => set (w1 := w0) end.
  unfold processQueue, processQueue_fuel.
  change (isProcessing w1) with (isProcessing w). rewrite Hf.
  destruct (drain_present (S (length (jobQueue w1))) Hacc
              (snd (set_isProcessing true w1)))
    as (w' & -> & Hq & _ & Hset & _).
  - simpl. lia.
  - simpl. apply Forall_app. split; [exact Hall|]. now constructor.
  - simpl in *. eexists. split; [reflexivity|]. split; [exact Hq|].
    split; [reflexivity|].
    apply Forall_app in Hset as [Hold Hlast]. split; [|exact Hold].
    now apply Forall_cons in Hlast as [Hlast _].
Qed.

(** X22. An iteration for a policy of the store ends in one of three ways
    and changes nothing else of its record: it returns with the status
    [completed] and [processedAt] stamped; it returns with the status
    [failed] and [processedAt] as it was; or the store rejects the [catch]
    block's update, and then the iteration throws the store's error and
    the record is left as it was. *)
Theorem process_job_record job w p :
  policies w !! job_policyId job = Some p ->
  exists p',
    policies (snd (process_job job w)) !! job_policyId job = Some p' /\
    pol_id p' = pol_id p /\ pol_stateId p' = pol_stateId p /\
    pol_stateName p' = pol_stateName p /\ pol_title p' = pol_title p /\
    ((fst (process_job job w) = Ok tt /\
      pol_status p' = completed /\ exists now, pol_processedAt p' = Some now) \/
     (fst (process_job job w) = Ok tt /\
      pol_status p' = failed /\ pol_processedAt p' = pol_processedAt p) \/
     (p' = p /\
      exists e calls,
        fst (process_job job w) = Throw e /\
        store_fault calls (PolicyUpdate (job_policyId job)) = Some e)).
Proof.
  intros Hp. destruct (process_job_outcome job w) as [-> ->].
  destruct (guarded_ingest_record job w p Hp)
    as [(-> & p' & -> & [[now ->]| ->])|(e & calls & -> & Hfault & ->)].
  - rewrite lookup_insert_eq. eexists. split; [reflexivity|]. simpl.
    repeat split. left. eauto.
  - rewrite lookup_insert_eq. eexists. split; [reflexivity|]. simpl.
    repeat split. right. left. now repeat split.
  - exists p. split; [exact Hp|]. repeat split. right. right.
    split; [reflexivity|]. now exists e, calls.
Qed.

End QueueProperties.

(** ** The gateway and policy deletion *)

Section DeletionProperties.
Context `{I : VectorIndex} `{E : Env} `{D : Deletion}.

(** X23. [deletePolicyVectors] never deletes an id the index did not return
    for the policy's filter: a [deleteMany] it sends holds exactly the ids
    the enumeration returned, in that order, and it sends none when the
    enumeration throws or returns nothing. *)
Theorem deletePolicyVectors_deletes_only_enumerated policyId w ids :
  EvIndexDeleteMany ids ∈ new_events w (snd (deletePolicyVectors policyId w)) ->
  exists resp,
    pinecone_query (trace w) (enumeration_request policyId) (index w) = Ok resp /\
    ids = map match_id (default [] (matches resp)) /\
    ids <> [].
Proof.
  unfold deletePolicyVectors, pineconeIndex_query, pineconeIndex_deleteMany,
    new_events.
  run_m.
  destruct (pinecone_query _ _ _) as [resp|e] eqn:Hq; simpl.
  - destruct (matches resp) as [[|m ms]|] eqn:Hm; simpl.
    + rewrite drop_app_length. intros H. apply list_elem_of_singleton in H.
      discriminate.
    + destruct (pinecone_deleteMany _ _ _) as [[[]|e] idx]; simpl.
      all: rewrite <- ?app_assoc, drop_app_length; simpl; intros H.
      all: repeat (apply elem_of_cons in H as [H|H]; [try discriminate|]).
      all: try (now apply elem_of_nil in H).
      all: injection H as ->; exists resp; rewrite Hm; now repeat split.
    + rewrite drop_app_length. intros H. apply list_elem_of_singleton in H.
      discriminate.
  - rewrite <- app_assoc, drop_app_length. simpl. intros H.
    repeat (apply elem_of_cons in H as [H|H]; [discriminate|]).
    now apply elem_of_nil in H.
Qed.

(** X24. Deleting a policy the store does not hold fails before anything is
    touched: Prisma's error is logged and rethrown as it is, and the tables,
    the vector index and the files stay as they were. *)
Theorem deletePolicy_missing policyId w :
  policies w !! policyId = None ->
  exists w',
    deletePolicy policyId w = (Throw record_not_found, w') /\
    same_stores w w' /\
    new_events w w'
    = [EvConsole LError ("❌ Failed to delete policy " ++ policyId ++ ":")].
Proof.
  intros Hp. unfold deletePolicy, policy_delete. run_m. rewrite Hp. simpl.
  eexists. split; [reflexivity|]. split; [now repeat split|].
  unfold new_events. simpl. now rewrite drop_app_length.
Qed.


End DeletionProperties.

(** ** Examples on the small deployment *)



Lemma ragQuery_no_results_witness :
  let w := Demo.world Demo.vectors [] in
  let search := hybridSearch (I := Demo.dot_index) (E := Demo.env "" [])
                  "hospice" (Some ["Utah"]) TOP_K_RESULTS w in
  search = (Ok [], snd search) /\
  exists resp,
    ragQuery (I := Demo.dot_index) (E := Demo.env "" []) "hospice"
      (Some ["Utah"]) [] w = (Ok resp, snd search) /\
    confidence resp = 0%Q /\
    citations resp = [] /\
    answer resp
    = "I couldn't find relevant information to answer your question. Try rephrasing or asking about specific telehealth modalities, billing codes, or state requirements." /\
    suggestedQueries resp
    = Some [ "What are the live video requirements?";
             "Does this state allow store-and-forward?";
             "What are the consent requirements?" ] /\
    Forall (fun e => is_chat e = false) (new_events w (snd search)).
Proof.
  intros w search.
  assert (Hs : search = (Ok [], snd search)) by (vm_compute; reflexivity).
  split; [exact Hs|].
  exact (ragQuery_no_results (I := Demo.dot_index) (E := Demo.env "" [])
           "hospice" (Some ["Utah"]) [] w (snd search) Hs).
Defined.

Lemma ragQuery_confidence_witness :
  let w := Demo.world Demo.vectors [] in
  let search := hybridSearch (I := Demo.dot_index) (E := Demo.env "Covered [1]." [])
                  "live video" (Some ["Texas"]) TOP_K_RESULTS w in
  search = (Ok Demo.texas_results, snd search) /\
  exists resp w',
    ragQuery (I := Demo.dot_index) (E := Demo.env "Covered [1]." [])
      "live video" (Some ["Texas"]) [] w = (Ok resp, w') /\
    answer resp = "Covered [1]." /\
    (confidence resp == spec_confidence (map similarity Demo.texas_results))%Q /\
    (confidence resp <= 1)%Q.
Proof.
  intros w search.
  assert (Hs : search = (Ok Demo.texas_results, snd search))
    by (vm_compute; reflexivity).
  split; [exact Hs|].
  destruct (ragQuery_confidence (I := Demo.dot_index)
              (E := Demo.env "Covered [1]." []) "live video" (Some ["Texas"]) []
              w Demo.texas_results (snd search) Hs ltac:(discriminate))
    as [Hreturns Hconf].
  destruct (Hreturns "Covered [1]." eq_refl eq_refl) as (resp & w' & Hr & Ha).
  exists resp, w'. split; [exact Hr|]. split; [exact Ha|].
  exact (Hconf resp w' Hr).
Defined.



Lemma upsertVectors_dimension_mismatch_witness :
  let w := Demo.world Demo.vectors [] in
  Exists (fun e => length (entry_values e) <> VECTOR_DIMENSIONS)
    [Demo.tx0; Demo.short_entry] /\
  exists e w',
    upsertVectors (I := MemIndex Demo.dot) [Demo.tx0; Demo.short_entry] w
    = (Throw e, w') /\
    index w' = index w /\
    new_events w w'
    = [EvIndexUpsert [Demo.tx0; Demo.short_entry];
       EvConsole LError "Error upserting vectors to Pinecone:"].
Proof.
  intros w.
  assert (Hex : Exists (fun e => length (entry_values e) <> VECTOR_DIMENSIONS)
                  [Demo.tx0; Demo.short_entry]).
  { apply Exists_cons_tl, Exists_cons_hd. vm_compute. discriminate. }
  split; [exact Hex|].
  exact (upsertVectors_dimension_mismatch Demo.dot [Demo.tx0; Demo.short_entry] w Hex).
Defined.

Lemma deletePolicyVectors_then_query_empty_witness :
  let w := Demo.world Demo.vectors [] in
  length (candidates (policy_filter "tx") (index w)) = 2 /\
  exists w' ids,
    deletePolicyVectors (I := MemIndex Demo.dot) "tx" w
    = (Ok {| deletedCount := length (candidates (policy_filter "tx") (index w)) |},
       w') /\
    ids ≡ₚ map fst (candidates (policy_filter "tx") (index w)) /\
    new_events w w'
    = EvIndexQuery (enumeration_request "tx")
      :: match ids with [] => [] | _ => [EvIndexDeleteMany ids] end /\
    req_vector (enumeration_request "tx") = replicate 768 0%Q /\
    req_topK (enumeration_request "tx") = 10000 /\
    forall queryVector topK,
      fst (queryVectors (I := MemIndex Demo.dot) queryVector topK
             (policy_filter "tx") w') = Ok [].
Proof.
  intros w.
  assert (Hn : length (candidates (policy_filter "tx") (index w)) = 2)
    by (vm_compute; reflexivity).
  split; [exact Hn|].
  apply (deletePolicyVectors_then_query_empty Demo.dot "tx" w).
  rewrite Hn. apply Nat.leb_le. vm_compute. reflexivity.
Defined.

Lemma process_job_unlinks_temp_file_witness :
  let E := Demo.env "No facts." [] in
  let w := Demo.world Demo.vectors [] in
  let w0 := snd (guarded_ingest Demo.texas_job w) in
  let w' := snd (process_job Demo.texas_job w) in
  fst (guarded_ingest Demo.texas_job w) = Ok tt /\
  files w !! "/tmp/upload.pdf" = Some "%PDF-1.7" /\
  fst (process_job Demo.texas_job w) = fst (guarded_ingest Demo.texas_job w) /\
  (new_events w0 w' = [EvUnlink "/tmp/upload.pdf"] \/
   new_events w0 w' = [EvUnlink "/tmp/upload.pdf"; unlink_warning "/tmp/upload.pdf"]) /\
  (fs_fault (trace w0) "/tmp/upload.pdf" = None ->
   files w' !! "/tmp/upload.pdf" = None).
Proof.
  intros E w w0 w'.
  split; [vm_compute; reflexivity|].
  split; [vm_compute; reflexivity|].
  exact (process_job_unlinks_temp_file (E := E) Demo.texas_job "/tmp/upload.pdf" w
           eq_refl eq_refl ltac:(discriminate)).
Defined.




Lemma hybridSearch_state_filter_witness :
  let w := Demo.world Demo.vectors [] in
  let search := hybridSearch (I := MemIndex Demo.dot) (E := Demo.env "" [])
                  "live video" (Some ["Texas"]) 5 w in
  search = (Ok Demo.texas_results, snd search) /\
  Forall (fun r => stateName r ∈ ["Texas"]) Demo.texas_results.
Proof.
  intros w search.
  assert (Hs : search = (Ok Demo.texas_results, snd search))
    by (vm_compute; reflexivity).
  split; [exact Hs|].
  apply Forall_forall. intros r Hr.
  exact (hybridSearch_state_filter Demo.dot (E := Demo.env "" []) "live video"
           ["Texas"] 5 w Demo.texas_results (snd search) r Hs Hr).
Defined.

Lemma processQueue_drains_witness :
  let E := Demo.env "No facts." [] in
  let w := Demo.world Demo.vectors [Demo.texas_job] in
  exists w',
    processQueue w = Some (Ok tt, w') /\
    jobQueue w' = [] /\
    isProcessing w' = false /\
    Forall (fun job => settled (job_policyId job) w') (jobQueue w).
Proof.
  intros E w.
  apply (processQueue_drains (E := E) w); [intros calls id; reflexivity|reflexivity|].
  constructor; [|constructor]. exists Demo.texas. vm_compute. reflexivity.
Defined.

Lemma process_job_other_policy_witness :
  let E := Demo.env "No facts." [] in
  let w := Demo.world Demo.vectors [] in
  fst (process_job Demo.ghost_job w) = Throw record_not_found /\
  policies (snd (process_job Demo.ghost_job w)) !! "tx" = policies w !! "tx".
Proof.
  intros E w. split; [vm_compute; reflexivity|].
  apply (process_job_other_policy (E := E) Demo.ghost_job w "tx"). discriminate.
Defined.

Lemma processQueue_poisoned_head_witness :
  let E := Demo.env "No facts." [] in
  let w := Demo.world Demo.vectors [Demo.ghost_job; Demo.texas_job] in
  policies w !! "ghost" = None /\
  exists w',
    processQueue w = Some (Throw record_not_found, w') /\
    isProcessing w' = true /\
    jobQueue w' = [Demo.texas_job] /\
    processQueue w' = Some (Ok tt, w').
Proof.
  intros E w.
  assert (Hp : policies w !! "ghost" = None) by (vm_compute; reflexivity).
  split; [exact Hp|].
  exact (processQueue_poisoned_head (E := E) w Demo.ghost_job [Demo.texas_job]
           eq_refl eq_refl Hp).
Defined.

Lemma hybridSearch_failure_witness :
  let w := Demo.world Demo.vectors [] in
  let search := hybridSearch (I := Demo.dot_index) (E := Demo.offline)
                  "live video" None 5 w in
  search = (Throw (Error "Search failed"), snd search) /\
  Error "Search failed" = Error "Search failed" /\
  ((exists cause,
      generateEmbedding (Env := Demo.offline) (trace w) "live video" = Throw cause /\
      new_events w (snd search)
      = [EvEmbed "live video"; EvConsole LError "Error in hybrid search:"]) \/
   (exists emb cause,
      generateEmbedding (Env := Demo.offline) (trace w) "live video" = Ok emb /\
      pinecone_query (VectorIndex := Demo.dot_index)
        (trace w ++ [EvEmbed "live video"])
        (search_request emb None 5) (index w) = Throw cause /\
      new_events w (snd search)
      = [EvEmbed "live video"; EvIndexQuery (search_request emb None 5);
         EvConsole LError "Error querying vectors from Pinecone:";
         EvConsole LError "Error in hybrid search:"])).
Proof.
  intros w search.
  assert (Hs : search = (Throw (Error "Search failed"), snd search))
    by (vm_compute; reflexivity).
  split; [exact Hs|].
  exact (hybridSearch_failure (I := Demo.dot_index) (E := Demo.offline)
           "live video" None 5 w _ _ Hs).
Defined.

Lemma hybridSearch_top_k_witness :
  let E := Demo.env "" [] in
  let w := Demo.world Demo.vectors [] in
  let search := hybridSearch (I := Demo.dot_index) "live video" None 1 w in
  search = (Ok (take 1 Demo.texas_results), snd search) /\
  exists emb resp left_out,
    pinecone_query (VectorIndex := Demo.dot_index)
      (trace w ++ [EvEmbed "live video"])
      (search_request emb None 1) (index w) = Ok resp /\
    take 1 Demo.texas_results ++ left_out ≡ₚ qualifying resp /\
    (forall r x, r ∈ take 1 Demo.texas_results -> x ∈ left_out ->
                 (similarity x <= similarity r)%Q) /\
    length (take 1 Demo.texas_results) = min 1 (length (qualifying resp)).
Proof.
  intros E w search.
  assert (Hs : search = (Ok (take 1 Demo.texas_results), snd search))
    by (vm_compute; reflexivity).
  split; [exact Hs|].
  exact (hybridSearch_top_k (I := Demo.dot_index) (E := E)
           "live video" None 1 w _ _ Hs).
Defined.

Lemma ragQuery_failure_witness :
  let E := Demo.flaky_env Demo.is_findMany in
  let w := Demo.world Demo.vectors [] in
  let search := hybridSearch (I := Demo.dot_index) "live video" (Some ["Texas"])
                  TOP_K_RESULTS w in
  let run := ragQuery (I := Demo.dot_index) "live video" (Some ["Texas"]) [] w in
  search = (Ok Demo.texas_results, snd search) /\
  store_fault (trace (snd search))
    (PolicyChunkFindMany (map chunkId Demo.texas_results))
  = Some (Error "Can't reach database server") /\
  run = (Throw (Error "Failed to generate answer"), snd run) /\
  Forall (fun ev => is_chat ev = false) (new_events w (snd run)).
Proof.
  intros E w search run.
  assert (Hs : search = (Ok Demo.texas_results, snd search))
    by (vm_compute; reflexivity).
  assert (Hr : run = (Throw (Error "Failed to generate answer"), snd run))
    by (vm_compute; reflexivity).
  split; [exact Hs|]. split; [reflexivity|]. split; [exact Hr|].
  destruct (ragQuery_failure (I := Demo.dot_index) (E := E)
              "live video" (Some ["Texas"]) [] w _ _ Hr)
    as [_ [(cause & w1 & Hthrown & _)
          |[(results & w1 & cause & _ & _ & _ & Hquiet)
           |(results & w1 & cause & Hs' & _ & Hread & _)]]].
  - exfalso. fold search in Hthrown. rewrite Hs in Hthrown. discriminate Hthrown.
  - exact Hquiet.
  - exfalso. fold search in Hs'. rewrite Hs in Hs'.
    injection Hs' as <- <-. discriminate Hread.
Defined.

Lemma ragQuery_citations_witness :
  let E := Demo.env "Covered [1]." [] in
  let w := Demo.archive in
  let search := hybridSearch (I := Demo.dot_index) "live video" (Some ["Texas"])
                  TOP_K_RESULTS w in
  search = (Ok Demo.texas_results, snd search) /\
  exists resp w',
    ragQuery (I := Demo.dot_index) "live video" (Some ["Texas"]) [] w
    = (Ok resp, w') /\
    map cit_content (citations resp)
    = ["Live video visits are covered when the patient consents.";
       "Live video visits are covered."] /\
    Forall2 (fun r c =>
               cit_pageNumber c = pageNumber r /\
               cit_stateName c = stateName r /\
               cit_policyTitle c = policyTitle r /\
               (cit_content c = content r \/
                exists row, row ∈ chunks w /\ chunk_id row = chunkId r /\
                            chunk_content row <> "" /\
                            cit_content c = chunk_content row))
      Demo.texas_results (citations resp).
Proof.
  intros E w search.
  assert (Hs : search = (Ok Demo.texas_results, snd search))
    by (vm_compute; reflexivity).
  split; [exact Hs|].
  destruct (ragQuery_returns (I := Demo.dot_index) (E := E) "live video"
              (Some ["Texas"]) [] w Demo.texas_results (snd search) "Covered [1]."
              Hs ltac:(discriminate) eq_refl eq_refl)
    as (resp & w' & Hr & _).
  exists resp, w'. split; [exact Hr|]. split.
  - assert (Hrun : fst (ragQuery (I := Demo.dot_index) (E := E) "live video"
                          (Some ["Texas"]) [] w)
                   = Ok resp) by (now rewrite Hr).
    vm_compute in Hrun. injection Hrun as <-. reflexivity.
  - exact (ragQuery_citations (I := Demo.dot_index) (E := E) "live video"
             (Some ["Texas"]) [] w Demo.texas_results (snd search) resp w' Hs Hr).
Defined.


Lemma extractPolicyFacts_missing_policy_witness :
  let E := Demo.env "No facts." [] in
  let w := Demo.world Demo.vectors [] in
  policies w !! "ghost" = None /\
  exists w',
    extractPolicyFacts "ghost" w
    = (Throw (Error "Failed to extract policy facts"), w') /\
    new_events w w' = [EvConsole LError "Error extracting policy facts:"] /\
    same_stores w w'.
Proof.
  intros E w.
  assert (Hp : policies w !! "ghost" = None) by (vm_compute; reflexivity).
  split; [exact Hp|].
  exact (extractPolicyFacts_missing_policy (E := E) "ghost" w Hp).
Defined.

Lemma extractPolicyFacts_partial_write_witness :
  let E := Demo.torn_env in
  let w := Demo.world Demo.vectors [] in
  match_braces Demo.torn_json = Some Demo.torn_json /\
  fact_data Demo.texas JNull
  = Throw (Error "Cannot read properties of null (reading 'category')") /\
  exists w' rows,
    extractPolicyFacts "tx" w
    = (Throw (Error "Failed to extract policy facts"), w') /\
    facts w' = (facts w ++ rows)%list /\
    Forall2 (fun fact row => fact_data Demo.texas fact = Ok row)
      [Demo.rule "written"] rows.
Proof.
  intros E w.
  assert (Hspan : match_braces Demo.torn_json = Some Demo.torn_json)
    by (vm_compute; reflexivity).
  split; [exact Hspan|].
  split; [vm_compute; reflexivity|].
  apply (extractPolicyFacts_partial_write (E := E) "tx" Demo.texas w
           Demo.torn_json Demo.torn_json Demo.torn_value
           [Demo.rule "written"] JNull [Demo.rule "verbal"]).
  - reflexivity.
  - reflexivity.
  - exact Hspan.
  - vm_compute. reflexivity.
  - reflexivity.
  - constructor; [|constructor]. eexists. split; reflexivity.
  - exact I.
Defined.


Lemma extractPolicyFacts_rows_witness :
  let E := Demo.facts_env in
  let w := Demo.world Demo.vectors [] in
  match_braces Demo.facts_reply = Some Demo.facts_json /\
  exists w' rows,
    extractPolicyFacts "tx" w = (Ok tt, w') /\
    facts w' = (facts w ++ rows)%list /\
    Forall2 (fun fact row =>
               fact_policyId row = pol_id Demo.texas /\
               fact_stateId row = pol_stateId Demo.texas /\
               get_prop fact "category" = Ok (fact_category row) /\
               get_prop fact "field" = Ok (fact_field row) /\
               get_prop fact "value" = Ok (fact_value row) /\
               get_prop fact "page" = Ok (fact_pageNumber row) /\
               (forall v, get_prop fact "confidence" = Ok (Some v) ->
                          truthy v = true -> fact_confidence row = v) /\
               (get_prop fact "confidence" = Ok None ->
                fact_confidence row = JNum 0.5))
      [Demo.consent_fact] rows.
Proof.
  intros E w.
  assert (Hspan : match_braces Demo.facts_reply = Some Demo.facts_json)
    by (vm_compute; reflexivity).
  split; [exact Hspan|].
  apply (extractPolicyFacts_rows (E := E) "tx" Demo.texas w
           Demo.facts_reply Demo.facts_json Demo.facts_value [Demo.consent_fact]).
  - reflexivity.
  - reflexivity.
  - exact Hspan.
  - vm_compute. reflexivity.
  - reflexivity.
  - constructor; [|constructor]. eexists. split; reflexivity.
Defined.

Lemma process_job_files_witness :
  let E := Demo.env "No facts." [] in
  let w := Demo.world Demo.vectors [] in
  files w !! "/tmp/upload.pdf" = Some "%PDF-1.7" /\
  fst (process_job Demo.kept_job w) = Ok tt /\
  files (snd (process_job Demo.kept_job w)) !! "/tmp/upload.pdf"
  = files w !! "/tmp/upload.pdf".
Proof.
  intros E w.
  split; [vm_compute; reflexivity|].
  split; [vm_compute; reflexivity|].
  apply (process_job_files (E := E) Demo.kept_job w "/tmp/upload.pdf").
  discriminate.
Defined.

Lemma process_job_buffer_no_read_witness :
  let E := Demo.env "No facts." [] in
  let w := Demo.world Demo.vectors [] in
  let job := Demo.memory_job "%PDF-1.4" in
  job_filePath job = Some "/tmp/upload.pdf" /\
  exists events : list event,
    trace (snd (process_job job w)) = (trace w ++ events)%list /\
    Forall not_a_read events.
Proof.
  intros E w job. split; [reflexivity|].
  exact (process_job_buffer_no_read (E := E) job "%PDF-1.4" w eq_refl).
Defined.

Lemma process_job_chunks_witness :
  let w := Demo.world Demo.vectors [] in
  (let E := Demo.paged_env in
   let w0 := snd (resolveBuffer Demo.texas_job w) in
   resolveBuffer Demo.texas_job w = (Ok "%PDF-1.7", w0) /\
   map chunk_content (chunks (snd (process_job Demo.texas_job w)))
   = ["Live video visits are covered."; "Written consent is required."] /\
   chunks (snd (process_job Demo.texas_job w))
   = (chunks w ++ chunk_rows (length (chunks w)) "tx" Demo.two_pages)%list) /\
  (let E := Demo.flaky_env Demo.is_createMany in
   let w0 := snd (resolveBuffer Demo.texas_job w) in
   resolveBuffer Demo.texas_job w = (Ok "%PDF-1.7", w0) /\
   store_fault (trace w0 ++ [EvProcessPDF "%PDF-1.7" "tx"])
     (PolicyChunkCreateMany "tx" Demo.two_pages)
   = Some (Error "Can't reach database server") /\
   chunks (snd (process_job Demo.texas_job w)) = chunks w).
Proof.
  intros w. split.
  - intros E w0.
    assert (Hr : resolveBuffer Demo.texas_job w = (Ok "%PDF-1.7", w0))
      by (vm_compute; reflexivity).
    split; [exact Hr|].
    split; [vm_compute; reflexivity|].
    exact (process_job_chunks (E := E) Demo.texas_job w Demo.texas "%PDF-1.7" w0
             eq_refl Hr).
  - intros E w0.
    assert (Hr : resolveBuffer Demo.texas_job w = (Ok "%PDF-1.7", w0))
      by (vm_compute; reflexivity).
    split; [exact Hr|]. split; [reflexivity|].
    exact (process_job_chunks (E := E) Demo.texas_job w Demo.texas "%PDF-1.7" w0
             eq_refl Hr).
Defined.


Lemma queuePolicyProcessing_busy_witness :
  let E := Demo.env "No facts." [] in
  let w := snd (set_isProcessing true (Demo.world Demo.vectors [Demo.texas_job])) in
  exists w',
    queuePolicyProcessing "tx" (Some "%PDF-1.4") None None w = Some w' /\
    jobQueue w'
    = [Demo.texas_job;
       {| job_policyId := "tx"; job_buffer := Some "%PDF-1.4";
          job_filePath := None; job_deleteFileAfter := None |}] /\
    isProcessing w' = true /\
    trace w' = trace w /\
    policies w' = policies w /\ chunks w' = chunks w /\ facts w' = facts w /\
    index w' = index w /\ files w' = files w.
Proof.
  intros E w.
  exact (queuePolicyProcessing_busy (E := E) "tx" (Some "%PDF-1.4") None None w
           eq_refl).
Defined.

Lemma queuePolicyProcessing_idle_witness :
  let E := Demo.env "No facts." [] in
  let w := Demo.world Demo.vectors [] in
  exists w',
    queuePolicyProcessing "tx" (Some "%PDF-1.4") None None w = Some w' /\
    jobQueue w' = [] /\
    isProcessing w' = false /\
    settled "tx" w' /\
    Forall (fun job => settled (job_policyId job) w') (jobQueue w).
Proof.
  intros E w.
  apply (queuePolicyProcessing_idle (E := E) "tx" (Some "%PDF-1.4") None None w).
  - intros calls id. reflexivity.
  - reflexivity.
  - constructor.
  - eexists. vm_compute. reflexivity.
Defined.

Lemma process_job_record_witness :
  let w := Demo.world Demo.vectors [] in
  policies w !! "tx" = Some Demo.texas /\
  (let E := Demo.env "No facts." [] in
   fst (process_job Demo.texas_job w) = Ok tt /\
   exists p',
     policies (snd (process_job Demo.texas_job w)) !! "tx" = Some p' /\
     pol_title p' = "Texas Medicaid" /\
     pol_status p' = completed /\
     exists now, pol_processedAt p' = Some now) /\
  (let E := Demo.flaky_env Demo.is_update in
   fst (process_job Demo.texas_job w)
   = Throw (Error "Can't reach database server") /\
   policies (snd (process_job Demo.texas_job w)) !! "tx" = Some Demo.texas).
Proof.
  intros w.
  assert (Hp : policies w !! "tx" = Some Demo.texas) by (vm_compute; reflexivity).
  split; [exact Hp|]. split.
  - intros E.
    assert (Hok : fst (process_job Demo.texas_job w) = Ok tt)
      by (vm_compute; reflexivity).
    split; [exact Hok|].
    assert (Hst : pol_status <$> policies (snd (process_job Demo.texas_job w)) !! "tx"
                  = Some completed) by (vm_compute; reflexivity).
    destruct (process_job_record (E := E) Demo.texas_job w Demo.texas Hp)
      as (p' & Hrec & _ & _ & _ & Htitle
          & [(_ & Hdone & Hstamp)|[(_ & Hfailed & _)|(_ & e & calls & Hthrow & _)]]).
    + exists p'. split; [exact Hrec|]. split; [exact Htitle|].
      split; [exact Hdone|exact Hstamp].
    + exfalso. change (job_policyId Demo.texas_job) with "tx" in Hrec.
      rewrite Hrec in Hst. simpl in Hst. rewrite Hfailed in Hst. discriminate Hst.
    + exfalso. rewrite Hok in Hthrow. discriminate Hthrow.
  - intros E.
    assert (Hthrow : fst (process_job Demo.texas_job w)
                     = Throw (Error "Can't reach database server"))
      by (vm_compute; reflexivity).
    split; [exact Hthrow|].
    destruct (process_job_record (E := E) Demo.texas_job w Demo.texas Hp)
      as (p' & Hrec & _ & _ & _ & _
          & [(Hok & _)|[(Hok & _)|(-> & _)]]).
    + exfalso. rewrite Hthrow in Hok. discriminate Hok.
    + exfalso. rewrite Hthrow in Hok. discriminate Hok.
    + exact Hrec.
Defined.

Lemma deletePolicyVectors_deletes_only_enumerated_witness :
  let I := MemIndex Demo.dot in
  let w := Demo.world Demo.vectors [] in
  let ids := ["tx-chunk-1"; "tx-chunk-0"] in
  new_events w (snd (deletePolicyVectors "tx" w))
  = [EvIndexQuery (enumeration_request "tx"); EvIndexDeleteMany ids] /\
  exists resp,
    pinecone_query (trace w) (enumeration_request "tx") (index w) = Ok resp /\
    ids = map match_id (default [] (matches resp)) /\
    ids <> [].
Proof.
  intros I w ids.
  assert (Hev : new_events w (snd (deletePolicyVectors "tx" w))
                = [EvIndexQuery (enumeration_request "tx"); EvIndexDeleteMany ids])
    by (vm_compute; reflexivity).
  split; [exact Hev|].
  apply (deletePolicyVectors_deletes_only_enumerated (I := I) "tx" w ids).
  rewrite Hev. apply list_elem_of_further, list_elem_of_here.
Defined.

Lemma deletePolicy_missing_witness :
  let D := Demo.unreachable in
  let w := Demo.world Demo.vectors [] in
  policies w !! "ghost" = None /\
  exists w',
    deletePolicy "ghost" w = (Throw record_not_found, w') /\
    same_stores w w' /\
    new_events w w'
    = [EvConsole LError ("❌ Failed to delete policy " ++ "ghost" ++ ":")].
Proof.
  intros D w.
  assert (Hp : policies w !! "ghost" = None) by (vm_compute; reflexivity).
  split; [exact Hp|].
  exact (deletePolicy_missing (D := D) "ghost" w Hp).
Defined.

